(** * REST mosaic: a shallow embedding of [src/serve/tileserver/REST_mosaic.py]

    The development follows the Python module top-down: the helper
    [get_utm_zone], the projection resolver [_get_proj_and_affine], the pixel
    indexer, the availability masks, the alpha assignment, the two fill loops
    and the raster writer, and finally [mosaic] that chains them.

    Numbers.  Python [int]s are [Z] (or [nat] where the code only ever holds a
    count).  Python floats are modelled by the rational they denote ([Q]);
    every operation is then the exact one, so rounding of the last bit is not
    part of the model.  The only float that is not a rational in the code
    paths below is the [nan] that numpy returns for [0.0/0]; it is [None] in
    [option Q]. *)

From Stdlib Require Import ZArith QArith Qround List String Ascii Bool Lia Lqa.
From Stdlib Require Import DecimalString.
From stdpp Require Import base decidable countable list gmap.
Import ListNotations.
Local Open Scope string_scope.
Local Open Scope Z_scope.

(** ** Python primitives *)

Module Py.

(** [int(x)] on a float: truncation towards zero. *)
Definition int (x : Q) : Z := Z.quot (Qnum x) (Zpos (Qden x)).

(** [str(n)] on an int: decimal digits, with a leading minus sign. *)
Definition str (n : Z) : string := NilZero.string_of_int (Z.to_int n).

(** The float of an int. *)
Definition float (n : Z) : Q := inject_Z n.

(** [a >= b], [a < b], [a > b] on floats. *)
Definition ge (a b : Q) : bool := Qle_bool b a.
Definition lt (a b : Q) : bool := negb (Qle_bool b a).
Definition gt (a b : Q) : bool := negb (Qle_bool a b).

End Py.

(** ** [get_utm_zone] (lines 26-43) *)

Definition get_utm_zone (lat lon : Q) : string :=
  let zone_str := Py.str (Py.int ((lon + 180) / 6) + 1) in
  if Py.ge lat 56 && Py.lt lat 64 && Py.ge lon 3 && Py.lt lon 12 then "32"
  else if Py.ge lat 72 && Py.lt lat 84 then
    if Py.ge lon 0 && Py.lt lon 9 then "31"
    else if Py.ge lon 9 && Py.lt lon 21 then "33"
    else if Py.ge lon 21 && Py.lt lon 33 then "35"
    else if Py.ge lon 33 && Py.lt lon 42 then "37"
    else zone_str
  else zone_str.

(** ** numpy arrays

    An array is its shape together with its items.  Items outside the shape
    are never read by the code below. *)

Record ndarray2 (A : Type) := Ndarray2
  { shape2 : nat * nat;  item2 : nat -> nat -> A }.
Record ndarray3 (A : Type) := Ndarray3
  { shape3 : nat * nat * nat;  item3 : nat -> nat -> nat -> A }.
Arguments Ndarray2 {A} _ _.
Arguments shape2 {A} _.
Arguments item2 {A} _ _ _.
Arguments Ndarray3 {A} _ _.
Arguments shape3 {A} _.
Arguments item3 {A} _ _ _ _.

Module Np.

(** [range(n)]. *)
Definition range (n : nat) : list nat := seq 0 n.

(** [np.zeros(shape)], [np.ones(shape)*v]. *)
Definition full2 {A} (d0 d1 : nat) (v : A) : ndarray2 A :=
  Ndarray2 (d0, d1) (fun _ _ => v).
Definition full3 {A} (d0 d1 d2 : nat) (v : A) : ndarray3 A :=
  Ndarray3 (d0, d1, d2) (fun _ _ _ => v).

(** [a[:, lo:hi] = v] and [a[lo:hi, :] = v]; a slice is clipped to the axis. *)
Definition set_cols {A} (a : ndarray2 A) (lo hi : nat) (v : A) : ndarray2 A :=
  Ndarray2 (shape2 a)
    (fun y x => if (lo <=? x)%nat && (x <? hi)%nat then v else item2 a y x).
Definition set_rows {A} (a : ndarray2 A) (lo hi : nat) (v : A) : ndarray2 A :=
  Ndarray2 (shape2 a)
    (fun y x => if (lo <=? y)%nat && (y <? hi)%nat then v else item2 a y x).

(** [a[..., i]] and [a[..., i] = l]. *)
Definition layer {A} (a : ndarray3 A) (i : nat) : ndarray2 A :=
  let '(d0, d1, _) := shape3 a in Ndarray2 (d0, d1) (fun y x => item3 a y x i).
Definition set_layer {A} (a : ndarray3 A) (i : nat) (l : ndarray2 A)
  : ndarray3 A :=
  Ndarray3 (shape3 a)
    (fun y x k => if (k =? i)%nat then item2 l y x else item3 a y x k).

(** [a[..., :i].sum(axis=-1)]. *)
Definition sum_before (a : ndarray3 Z) (i : nat) : ndarray2 Z :=
  let '(d0, d1, _) := shape3 a in
  Ndarray2 (d0, d1)
    (fun y x => fold_left Z.add (map (item3 a y x) (range i)) 0).

(** [a - b] and [a.clip(lo, hi)], elementwise. *)
Definition sub (a b : ndarray2 Z) : ndarray2 Z :=
  Ndarray2 (shape2 a) (fun y x => item2 a y x - item2 b y x).
Definition clip (a : ndarray2 Z) (lo hi : Z) : ndarray2 Z :=
  Ndarray2 (shape2 a) (fun y x => Z.min (Z.max (item2 a y x) lo) hi).

(** [a.sum()]. *)
Definition sum (a : ndarray2 Z) : Z :=
  fold_left Z.add
    (flat_map (fun y => map (item2 a y) (range (snd (shape2 a))))
              (range (fst (shape2 a)))) 0.

(** [a[m > 0].tolist()]: the items of [a] where [m > 0], in row-major order. *)
Definition select_pos {A} (a : ndarray2 A) (m : ndarray2 Z) : list A :=
  flat_map (fun y =>
      flat_map (fun x => if 0 <? item2 m y x then [item2 a y x] else [])
               (range (snd (shape2 m))))
    (range (fst (shape2 m))).

(** [np.where(b)[0]] on a one-dimensional boolean array. *)
Fixpoint where_from (i : nat) (b : list bool) : list nat :=
  match b with
  | [] => []
  | c :: b' => ((if c then [i] else []) ++ where_from (S i) b')%list
  end.
Definition where_ (b : list bool) : list nat := where_from 0 b.

(** [b.sum()] on a boolean array and [a.min()] on a non-empty int array. *)
Definition count_true (b : list bool) : nat :=
  length (List.filter (fun c : bool => c) b).
Definition min (a : list nat) : option nat :=
  match a with
  | [] => None
  | i :: a' => Some (fold_left Nat.min a' i)
  end.

(** Nested lists of an array, for reading results. *)
Definition tolist2 {A} (a : ndarray2 A) : list (list A) :=
  map (fun y => map (item2 a y) (range (snd (shape2 a))))
      (range (fst (shape2 a))).
Definition tolist3 {A} (a : ndarray3 A) : list (list (list A)) :=
  let '(d0, d1, d2) := shape3 a in
  map (fun y => map (fun x => map (item3 a y x) (range d2)) (range d1))
      (range d0).

(** An array from nested lists (row, column, layer); missing items are [d]. *)
Definition array3 {A} (d : A) (d0 d1 d2 : nat) (l : list (list (list A)))
  : ndarray3 A :=
  Ndarray3 (d0, d1, d2) (fun y x k => nth k (nth x (nth y l []) []) d).

End Np.

(** ** Exceptions and the state of a build *)

Inductive exn : Type :=
| ZeroDivisionError
| ValueError
| IndexError
| NameError (name : string)
| KeyError (key : string)
| RemoteError (msg : string).

Inductive result (A : Type) : Type :=
| Return (a : A)
| Raise (e : exn).
Arguments Return {A} _.
Arguments Raise {A} _.

(** The body that [_get_GEE_arr] posts to [<name>:getPixels]. *)
Record request := Request
  { req_name : string;
    req_bandIds : list string;
    req_scaleX : Q;
    req_scaleY : Q;
    req_translateX : Q;
    req_translateY : Q;
    req_width : nat;
    req_height : nat;
    req_crsCode : string }.

(** The arguments of [rasterio.open] in [_write_rio] and the array written. *)
Record raster := Raster
  { ras_path : string;
    ras_width : nat;
    ras_height : nat;
    ras_count : nat;
    ras_crs : string;
    ras_transform : Q * Q * Q * Q * Q * Q;
    ras_data : ndarray3 Q }.

(** What [_get_proj_and_affine] returns ([reproject] is a pyproj closure
    and is left out). *)
Record projection := Projection
  { aoi_bounds : Q * Q * Q * Q;
    GT : list Q;
    Dx : Z;
    Dy : Z;
    UTM_EPSG : string }.

Definition patch : Type := nat * nat.

(** The attributes that [mosaic] sets on [self] ([None]: not set), and the
    calls that have left the process: posts to the pixel service, rasters
    handed to rasterio. *)
Record state := State
  { self_proj : option projection;
    self_image_ids : option (list string);
    self_px : option (ndarray2 nat * ndarray2 nat);
    self_masks : option (ndarray3 Z * list (option Q));
    self_alpha_mask : option (ndarray3 Z);
    self_run_idx : option (list (string * list patch));
    self_im_arr : option (ndarray3 Q);
    requests : list request;
    rasters : list raster }.

Definition initial : state :=
  State None None None None None None None [] [].

Definition M (A : Type) : Type := state -> result A * state.

#[export] Instance M_ret : MRet M := fun A a s => (Return a, s).
#[export] Instance M_bind : MBind M := fun A B k c s =>
  match c s with
  | (Return a, s') => k a s'
  | (Raise e, s') => (Raise e, s')
  end.

Definition raise {A} (e : exn) : M A := fun s => (Raise e, s).
Definition lift {A} (r : result A) : M A := fun s => (r, s).
Definition modify (f : state -> state) : M unit := fun s => (Return tt, f s).

(** [for x in l: acc = body(acc, x)], stopping at the first exception. *)
Fixpoint for_each {A B} (l : list A) (body : B -> A -> M B) (acc : B) : M B :=
  match l with
  | [] => mret acc
  | x :: l' => acc' ← body acc x; for_each l' body acc'
  end.

(** Attribute assignments. *)
Definition set_proj (v : projection) (s : state) : state :=
  State (Some v) (self_image_ids s) (self_px s) (self_masks s)
        (self_alpha_mask s) (self_run_idx s) (self_im_arr s)
        (requests s) (rasters s).
Definition set_image_ids (v : list string) (s : state) : state :=
  State (self_proj s) (Some v) (self_px s) (self_masks s)
        (self_alpha_mask s) (self_run_idx s) (self_im_arr s)
        (requests s) (rasters s).
Definition set_px (v : ndarray2 nat * ndarray2 nat) (s : state) : state :=
  State (self_proj s) (self_image_ids s) (Some v) (self_masks s)
        (self_alpha_mask s) (self_run_idx s) (self_im_arr s)
        (requests s) (rasters s).
Definition set_masks (v : ndarray3 Z * list (option Q)) (s : state) : state :=
  State (self_proj s) (self_image_ids s) (self_px s) (Some v)
        (self_alpha_mask s) (self_run_idx s) (self_im_arr s)
        (requests s) (rasters s).
Definition set_alpha_mask (v : ndarray3 Z) (s : state) : state :=
  State (self_proj s) (self_image_ids s) (self_px s) (self_masks s)
        (Some v) (self_run_idx s) (self_im_arr s)
        (requests s) (rasters s).
Definition set_run_idx (v : list (string * list patch)) (s : state) : state :=
  State (self_proj s) (self_image_ids s) (self_px s) (self_masks s)
        (self_alpha_mask s) (Some v) (self_im_arr s)
        (requests s) (rasters s).
Definition set_im_arr (v : ndarray3 Q) (s : state) : state :=
  State (self_proj s) (self_image_ids s) (self_px s) (self_masks s)
        (self_alpha_mask s) (self_run_idx s) (Some v)
        (requests s) (rasters s).
Definition add_request (v : request) (s : state) : state :=
  State (self_proj s) (self_image_ids s) (self_px s) (self_masks s)
        (self_alpha_mask s) (self_run_idx s) (self_im_arr s)
        (requests s ++ [v])%list (rasters s).
Definition add_raster (v : raster) (s : state) : state :=
  State (self_proj s) (self_image_ids s) (self_px s) (self_masks s)
        (self_alpha_mask s) (self_run_idx s) (self_im_arr s)
        (requests s) (rasters s ++ [v])%list.

(** The error monad of the methods that touch neither [self] nor a service. *)
#[export] Instance result_ret : MRet result := fun A a => Return a.
#[export] Instance result_bind : MBind result := fun A B k r =>
  match r with
  | Return a => k a
  | Raise e => Raise e
  end.

Fixpoint fold_result {A B} (l : list A) (body : B -> A -> result B) (acc : B)
  : result B :=
  match l with
  | [] => Return acc
  | x :: l' => acc' ← body acc x; fold_result l' body acc'
  end.

Module PyList.

(** [enumerate(l)]. *)
Definition enumerate {A} (l : list A) : list (nat * A) :=
  combine (seq 0 (length l)) l.

(** [s[-n:]] on a string. *)
Definition suffix (n : nat) (s : string) : string :=
  substring (String.length s - n) n s.

(** [d[k] = v] on a dict: the value of an existing key is replaced where the
    key stands, a new key goes to the end; [d.items()] is the list itself. *)
Fixpoint dict_set {V} (d : list (string * V)) (k : string) (v : V)
  : list (string * V) :=
  match d with
  | [] => [(k, v)]
  | (k', v') :: d' =>
      if String.eqb k' k then (k, v) :: d' else (k', v') :: dict_set d' k v
  end.

(** [list(set(l))]: the distinct items of [l], in the order of the set. *)
Definition list_set (l : list patch) : list patch :=
  elements (list_to_set l : gset patch).

End PyList.

(** ** The instance and its collaborators *)

(** The parameters of [RESTMosaic.__init__] that [mosaic] reads.
    [PATCH_SIZE] is a count of pixels. *)
Record config := Config
  { BANDS : list string;
    PATCH_SIZE : nat;
    SCALE : Q;
    save_path : string;
    cloud_dest : option string }.

(** The answers of the libraries and services around one call of [mosaic]:
    - [centroid]: [(aoi_wgs.centroid.x, aoi_wgs.centroid.y)];
    - [utm_bounds crs]: [ops.transform(reproject, aoi_wgs).bounds] for the
      pyproj transformer into [crs], as [(minx, miny, maxx, maxy)];
    - [catalog]: the list that [_get_GEE_ids] returns;
    - [tile_raster name]: for a tile of [s2_tiles], the array
      [np.flip(np.array(im), axis=0)] of lines 235-242, by row and column;
      [None] when [name] is not an index of [s2_tiles];
    - [post history body]: the outcome of [session.post] followed by
      [np.load] and [np.dstack] in [_get_GEE_arr], after the posts of
      [history]: the patch by row, column and band, or the message of the
      exception raised. *)
Record env := Env
  { centroid : Q * Q;
    utm_bounds : string -> Q * Q * Q * Q;
    catalog : list string;
    tile_raster : string -> option (nat -> nat -> Z);
    post : list request -> request -> string + (nat -> nat -> nat -> Q) }.

(** ** [_get_GEE_arr] (lines 63-85) *)

Definition _get_GEE_arr (E : env) (name : string) (bands : list string)
    (x_off y_off : Q) (patch_size : nat) (crs_code : string)
  : M (nat -> nat -> nat -> Q) :=
  fun s =>
    let body := Request name bands 10 (-10) x_off y_off
                        patch_size patch_size crs_code in
    match post E (requests s) body with
    | inr arr => (Return arr, add_request body s)
    | inl msg => (Raise (RemoteError msg), add_request body s)
    end.

(** ** [RESTMosaic._get_proj_and_affine] (lines 189-213) *)

(** [a // b] on floats. *)
Definition float_floordiv (a b : Q) : result Q :=
  if Qeq_bool b 0 then Raise ZeroDivisionError
  else Return (inject_Z (Qfloor (a / b)%Q)).

Definition _get_proj_and_affine (E : env) (cfg : config) : result projection :=
  let '(cx, cy) := centroid E in
  let utm_zone := get_utm_zone cy cx in
  let UTM_EPSG :=
    if Py.gt cy 0 then "EPSG:" ++ Py.str 326 ++ utm_zone
    else "EPSG:" ++ Py.str 327 ++ utm_zone in
  let '(b0, b1, b2, b3) := utm_bounds E UTM_EPSG in
  qx ← float_floordiv (b2 - b0) (SCALE cfg);
  let Dx := Py.int qx in
  qy ← float_floordiv (b3 - b1) (SCALE cfg);
  let Dy := Py.int qy in
  let a := (1 / 10)%Q in let e := a in
  let b := 0%Q in let d := b in
  let x_off := (- b0 / 10)%Q in
  let y_off := (- b1 / 10)%Q in
  let GT := [a; b; d; e; x_off; y_off] in
  Return (Projection (b0, b1, b2, b3) GT Dx Dy UTM_EPSG).

(** [shapely.affinity.affine_transform] on one point, for the matrix
    [[a, b, d, e, xoff, yoff]] (line 237). *)
Definition affine_transform (m : list Q) (p : Q * Q) : Q * Q :=
  match m with
  | [a; b; d; e; xoff; yoff] =>
      (a * fst p + b * snd p + xoff, d * fst p + e * snd p + yoff)%Q
  | _ => p
  end.

(** ** [RESTMosaic._make_pixel_indexer] (lines 215-226)

    [np.zeros] refuses a negative dimension; after it the dimensions are
    counts, and the later methods take them as such. *)

Definition _make_pixel_indexer (cfg : config) (Dx Dy : Z)
  : result (ndarray2 nat * ndarray2 nat) :=
  if (Dy <? 0) || (Dx <? 0) then Raise ValueError else
  let dx := Z.to_nat Dx in
  let dy := Z.to_nat Dy in
  let P := PATCH_SIZE cfg in
  let px_x := Np.full2 dy dx 0%nat in
  let px_y := Np.full2 dy dx 0%nat in
  if (P =? 0)%nat then Raise ZeroDivisionError else
  let px_x :=
    fold_left (fun px idx => Np.set_cols px (idx * P) ((idx + 1) * P) idx)
              (Np.range (dx / P + 1)) px_x in
  let px_y :=
    fold_left (fun px idy => Np.set_rows px (idy * P) ((idy + 1) * P) idy)
              (Np.range (dy / P + 1)) px_y in
  Return (px_x, px_y).

(** ** [RESTMosaic._mask_by_id] (lines 228-245) *)

(** [s / d0 / d1] for the sum [s] of a layer of shape [(d0, d1)]: the sum of
    an empty layer is [0.0], and numpy gives [nan] for [0.0 / 0]. *)
Definition fill_fraction (s : Z) (d0 d1 : nat) : option Q :=
  if (d0 =? 0)%nat || (d1 =? 0)%nat then None
  else Some (inject_Z s / inject_Z (Z.of_nat d0) / inject_Z (Z.of_nat d1))%Q.

(** The body of the loop over [enumerate(self.image_ids)]. *)
Definition mask_step (E : env) (Dx Dy : nat)
    (st : ndarray3 Z * list (option Q)) (e : nat * string)
  : result (ndarray3 Z * list (option Q)) :=
  let '(mask_arr, fills) := st in
  let '(ii, _id) := e in
  match tile_raster E (PyList.suffix 5 _id) with
  | None => Raise (KeyError (PyList.suffix 5 _id))
  | Some im =>
      let mask_arr := Np.set_layer mask_arr ii (Ndarray2 (Dy, Dx) im) in
      let fill := fill_fraction (Np.sum (Np.layer mask_arr ii)) Dy Dx in
      Return (mask_arr, (fills ++ [fill])%list)
  end.

Definition _mask_by_id (E : env) (image_ids : list string) (Dx Dy : nat)
  : result (ndarray3 Z * list (option Q)) :=
  let mask_arr := Np.full3 Dy Dx (length image_ids) 0 in
  fold_result (PyList.enumerate image_ids) (mask_step E Dx Dy) (mask_arr, []).

(** ** [RESTMosaic._make_alpha_mask] (lines 276-288) *)

(** The body of the loop over [enumerate(self.image_ids)]; [main_mask] is
    updated along but never read. *)
Definition alpha_step (mask_arr : ndarray3 Z)
    (st : ndarray2 Z * ndarray3 Z) (e : nat * string)
  : ndarray2 Z * ndarray3 Z :=
  let '(main_mask, alpha_mask) := st in
  let '(ii, _id) := e in
  if (ii =? 0)%nat then
    let alpha_mask := Np.set_layer alpha_mask ii (Np.layer mask_arr ii) in
    (Np.sub main_mask (Np.layer mask_arr ii), alpha_mask)
  else if (0 <? ii)%nat then
    let alpha_mask :=
      Np.set_layer alpha_mask ii
        (Np.clip (Np.sub (Np.layer mask_arr ii) (Np.sum_before mask_arr ii))
                 0 1) in
    (Np.sub main_mask (Np.layer alpha_mask ii), alpha_mask)
  else (main_mask, alpha_mask).

Definition _make_alpha_mask (image_ids : list string) (mask_arr : ndarray3 Z)
    (Dx Dy : nat) : ndarray3 Z :=
  let main_mask := Np.full2 Dy Dx 1 in
  let alpha_mask := Np.full3 Dy Dx (length image_ids) 0 in
  snd (fold_left (alpha_step mask_arr) (PyList.enumerate image_ids)
                 (main_mask, alpha_mask)).

(** ** The fill loops *)

(** [im_arr[y0:y0+P, x0:x0+P, :][m, :] = arr[:Dy-y0, :Dx-x0, :][m, :]]:
    inside the patch and where [m] holds, the item of [arr] at the offset in
    the patch; the slices stop at the edge of [im_arr]. *)
Definition paste (im_arr : ndarray3 Q) (y0 x0 P : nat)
    (m : nat -> nat -> bool) (arr : nat -> nat -> nat -> Q) : ndarray3 Q :=
  Ndarray3 (shape3 im_arr)
    (fun y x b =>
       if (y0 <=? y)%nat && (y <? y0 + P)%nat &&
          (x0 <=? x)%nat && (x <? x0 + P)%nat && m y x
       then arr (y - y0)%nat (x - x0)%nat b
       else item3 im_arr y x b).

(** [n // d] on ints. *)
Definition floordiv (n d : nat) : result nat :=
  if (d =? 0)%nat then Raise ZeroDivisionError else Return (n / d)%nat.

(** The offsets of lines 255-256 and 298-299. *)
Definition x_off (cfg : config) (proj : projection) (ii_x : nat) : Q :=
  let '(b0, _, _, _) := aoi_bounds proj in
  (b0 + inject_Z (Z.of_nat ii_x) * inject_Z (Z.of_nat (PATCH_SIZE cfg))
        * SCALE cfg)%Q.
Definition y_off (cfg : config) (proj : projection) (ii_y : nat) : Q :=
  let '(_, _, _, b3) := aoi_bounds proj in
  (b3 - inject_Z (Z.of_nat ii_y) * inject_Z (Z.of_nat (PATCH_SIZE cfg))
        * SCALE cfg)%Q.

(** The call of [_get_GEE_arr] that both loops make for a scene and a patch. *)
Definition fetch (E : env) (cfg : config) (proj : projection)
    (_id : string) (p : patch) : M (nat -> nat -> nat -> Q) :=
  let '(ii_x, ii_y) := p in
  let NAME := "projects/earthengine-public/assets/" ++ _id in
  _get_GEE_arr E NAME (BANDS cfg) (x_off cfg proj ii_x) (y_off cfg proj ii_y)
               (PATCH_SIZE cfg) (UTM_EPSG proj).

(** [RESTMosaic._fill_single_id] (lines 247-273). *)
Definition _fill_single_id (E : env) (cfg : config) (proj : projection)
    (Dx Dy : nat) (_id : string) : M (ndarray3 Q) :=
  let P := PATCH_SIZE cfg in
  let im_arr := Np.full3 Dy Dx (length (BANDS cfg)) (-1)%Q in
  nx ← lift (floordiv Dx P);
  for_each (Np.range (nx + 1))
    (fun im_arr ii_x =>
       ny ← lift (floordiv Dy P);
       for_each (Np.range (ny + 1))
         (fun im_arr ii_y =>
            arr ← fetch E cfg proj _id (ii_x, ii_y);
            mret (paste im_arr (ii_y * P) (ii_x * P) P (fun _ _ => true) arr))
         im_arr)
    im_arr.

(** [RESTMosaic._fill_mosaic] (lines 291-318). *)
Definition _fill_mosaic (E : env) (cfg : config) (proj : projection)
    (Dx Dy : nat) (alpha_mask : ndarray3 Z)
    (run_idx : list (string * list patch)) : M (ndarray3 Q) :=
  let P := PATCH_SIZE cfg in
  let im_arr := Np.full3 Dy Dx (length (BANDS cfg)) (-1)%Q in
  for_each (PyList.enumerate run_idx)
    (fun im_arr '(ii, (_id, vv)) =>
       for_each vv
         (fun im_arr '(ii_x, ii_y) =>
            arr ← fetch E cfg proj _id (ii_x, ii_y);
            let im_mask := fun y x => 0 <? item3 alpha_mask y x ii in
            mret (paste im_arr (ii_y * P) (ii_x * P) P im_mask arr))
         im_arr)
    im_arr.

(** ** [RESTMosaic._write_rio] (lines 320-333) *)

(** [np.transpose(a, [2, 0, 1])]. *)
Definition transpose_201 {A} (a : ndarray3 A) : ndarray3 A :=
  let '(d0, d1, d2) := shape3 a in
  Ndarray3 (d2, d0, d1) (fun b y x => item3 a y x b).

(** [rasterio.transform.from_origin]: the matrix [(a, b, c, d, e, f)] of
    [Affine.translation(west, north) * Affine.scale(xsize, -ysize)]. *)
Definition from_origin (west north xsize ysize : Q) : Q * Q * Q * Q * Q * Q :=
  (xsize, 0, west, 0, - ysize, north)%Q.

Definition _write_rio (cfg : config) (proj : projection) (im_arr : ndarray3 Q)
  : M unit :=
  let '(b0, _, _, b3) := aoi_bounds proj in
  let '(d0, d1, _) := shape3 im_arr in
  modify (add_raster
            (Raster (save_path cfg) d0 d1 (length (BANDS cfg)) (UTM_EPSG proj)
                    (from_origin b0 b3 (SCALE cfg) (SCALE cfg))
                    (transpose_201 im_arr))).

(** ** [RESTMosaic.mosaic] (lines 128-186)

    The figure of lines 177-179 is left out. *)

(** [np.array(fills) > 0.95]; a comparison with [nan] is false. *)
Definition over_threshold (fills : list (option Q)) : list bool :=
  map (fun f => match f with
                | Some q => Py.gt q (95 # 100)
                | None => false
                end) fills.

(** The patches of one scene (line 168). *)
Definition owned_patches (px_x px_y : ndarray2 nat) (alpha_mask : ndarray3 Z)
    (ii : nat) : list patch :=
  PyList.list_set
    (combine (Np.select_pos px_x (Np.layer alpha_mask ii))
             (Np.select_pos px_y (Np.layer alpha_mask ii))).

(** The loop of lines 166-168. *)
Definition make_run_idx (image_ids : list string) (px_x px_y : ndarray2 nat)
    (alpha_mask : ndarray3 Z) : list (string * list patch) :=
  fold_left
    (fun run_idx '(ii, _id) =>
       PyList.dict_set run_idx _id (owned_patches px_x px_y alpha_mask ii))
    (PyList.enumerate image_ids) [].

Definition mosaic (E : env) (cfg : config) : M unit :=
  proj ← lift (_get_proj_and_affine E cfg);
  modify (set_proj proj);;
  let image_ids := catalog E in
  modify (set_image_ids image_ids);;
  px ← lift (_make_pixel_indexer cfg (Dx proj) (Dy proj));
  modify (set_px px);;
  let dx := Z.to_nat (Dx proj) in
  let dy := Z.to_nat (Dy proj) in
  masks ← lift (_mask_by_id E image_ids dx dy);
  modify (set_masks masks);;
  let '(mask_arr, fills) := masks in
  im_arr ←
    (if (1 <=? Np.count_true (over_threshold fills))%nat then
       match Np.min (Np.where_ (over_threshold fills)) with
       | None => raise ValueError
       | Some k =>
           match image_ids !! k with
           | None => raise IndexError
           | Some do_id => _fill_single_id E cfg proj dx dy do_id
           end
       end
     else
       let alpha_mask := _make_alpha_mask image_ids mask_arr dx dy in
       modify (set_alpha_mask alpha_mask);;
       let run_idx := make_run_idx image_ids (fst px) (snd px) alpha_mask in
       modify (set_run_idx run_idx);;
       _fill_mosaic E cfg proj dx dy alpha_mask run_idx);
  modify (set_im_arr im_arr);;
  _write_rio cfg proj im_arr;;
  match cloud_dest cfg with
  | Some (String _ _) => raise (NameError "src")
  | _ => mret tt
  end.

(** ** Vocabulary of the properties *)


(** An availability stack of shape [(Dy, Dx, N)] with items 0 and 1. *)
Definition binary (m : ndarray3 Z) (Dy Dx N : nat) : Prop :=
  forall y x i, (y < Dy)%nat -> (x < Dx)%nat -> (i < N)%nat ->
    item3 m y x i = 0 \/ item3 m y x i = 1.

(** The sum of the first [i] items of a pixel, and the item that line 282
    or 285 stores in layer [i] of that pixel. *)
Definition prefix_sum (f : nat -> Z) (i : nat) : Z :=
  fold_left Z.add (map f (Np.range i)) 0.
Definition layer_value (m : ndarray3 Z) (y x i : nat) : Z :=
  if (i =? 0)%nat then item3 m y x 0
  else Z.min (Z.max (item3 m y x i - prefix_sum (item3 m y x) i) 0) 1.

(** The state after the posts [l]. *)
Definition with_requests (s : state) (l : list request) : state :=
  State (self_proj s) (self_image_ids s) (self_px s) (self_masks s)
        (self_alpha_mask s) (self_run_idx s) (self_im_arr s)
        (requests s ++ l)%list (rasters s).

(** The body that [fetch] posts for a scene and a patch. *)
Definition request_for (cfg : config) (proj : projection) (_id : string)
    (p : patch) : request :=
  Request ("projects/earthengine-public/assets/" ++ _id) (BANDS cfg)
          10 (-10) (x_off cfg proj (fst p)) (y_off cfg proj (snd p))
          (PATCH_SIZE cfg) (PATCH_SIZE cfg) (UTM_EPSG proj).

(** Posting the bodies of [plan] in turn after [hist], up to and including
    the first one that the service fails: the bodies posted and the message
    of the failure, if any. *)
Fixpoint issue (E : env) (hist plan : list request)
  : list request * option string :=
  match plan with
  | [] => ([], None)
  | q :: plan' =>
      match post E hist q with
      | inr _ =>
          let '(sent, failure) := issue E (hist ++ [q])%list plan' in
          (q :: sent, failure)
      | inl msg => ([q], Some msg)
      end
  end.

(** [c] posts the bodies of [plan] in turn and nothing else, raises the
    failure of the service if there is one, and otherwise returns an array
    of shape [sh]. *)
Definition runs_plan (E : env) (c : M (ndarray3 Q)) (sh : nat * nat * nat)
    (plan : list request) : Prop :=
  forall s, exists r,
    c s = (r, with_requests s (fst (issue E (requests s) plan))) /\
    match snd (issue E (requests s) plan) with
    | Some msg => r = Raise (RemoteError msg)
    | None => exists im, r = Return im /\ shape3 im = sh
    end.

(** The (scene, patch) pairs that [_fill_mosaic] goes through, and the
    patches that [_fill_single_id] goes through, in order. *)
Definition fetch_plan (run_idx : list (string * list patch))
  : list (string * patch) :=
  flat_map (fun '(_id, vv) => map (pair _id) vv) run_idx.
Definition grid_patches (cfg : config) (Dx Dy : nat) : list patch :=
  flat_map (fun ii_x => map (pair ii_x)
                            (Np.range (Dy / PATCH_SIZE cfg + 1)))
           (Np.range (Dx / PATCH_SIZE cfg + 1)).

(** [self] once lines 132-148 have run, and lines 177-186 for the array
    that either branch of line 151 has filled. *)
Definition prepared (E : env) (proj : projection)
    (px : ndarray2 nat * ndarray2 nat) (masks : ndarray3 Z * list (option Q))
    (s : state) : state :=
  set_masks masks (set_px px (set_image_ids (catalog E) (set_proj proj s))).
Definition finish (cfg : config) (proj : projection) (im_arr : ndarray3 Q)
  : M unit :=
  modify (set_im_arr im_arr);;
  _write_rio cfg proj im_arr;;
  match cloud_dest cfg with
  | Some (String _ _) => raise (NameError "src")
  | _ => mret tt
  end.

(** Pixel [(y, x)] lies in patch [p = (patch_x, patch_y)]. *)
Definition patch_contains (cfg : config) (p : patch) (y x : nat) : Prop :=
  (fst p * PATCH_SIZE cfg <= x < (fst p + 1) * PATCH_SIZE cfg)%nat /\
  (snd p * PATCH_SIZE cfg <= y < (snd p + 1) * PATCH_SIZE cfg)%nat.

(** Patch [p] holds a pixel of the [(Dy, Dx)] grid that layer [ii] of
    [alpha_mask] owns. *)
Definition owns_in_patch (cfg : config) (alpha_mask : ndarray3 Z)
    (Dx Dy ii : nat) (p : patch) : Prop :=
  exists y x, (y < Dy)%nat /\ (x < Dx)%nat /\
              0 < item3 alpha_mask y x ii /\ patch_contains cfg p y x.

(** The calls of a fetch plan for one scene. *)
Definition calls_for (_id : string) (plan : list (string * patch))
  : list (string * patch) :=
  List.filter (fun sp => String.eqb (fst sp) _id) plan.

(** The bounds that the resolver works on: those of the AOI in the CRS that
    the centroid selects. *)
Definition resolver_bounds (E : env) : Q * Q * Q * Q :=
  let '(cx, cy) := centroid E in
  utm_bounds E
    (if Py.gt cy 0 then "EPSG:" ++ Py.str 326 ++ get_utm_zone cy cx
     else "EPSG:" ++ Py.str 327 ++ get_utm_zone cy cx).


(** A north-up pixel-to-ground transform for a scale and a pixel origin at
    the minimum-x/minimum-y corner of the bounds: the reading of a matrix
    [[a, b, d, e, xoff, yoff]] that the properties of the resolver are
    compared with. *)
Definition north_up_pixel_to_utm (scale : Q) (bounds : Q * Q * Q * Q)
    (m : list Q) : Prop :=
  let '(b0, b1, _, _) := bounds in
  match m with
  | [a; b; d; e; xoff; yoff] =>
      (0 < a /\ e < 0 /\ a == scale /\ - e == scale /\
       fst (affine_transform m (0, 0)) == b0 /\
       snd (affine_transform m (0, 0)) == b1)%Q
  | _ => False
  end.


(** The build posts again a body that the service has failed. *)
Definition retries_failed_fetch (E : env) (cfg : config) (s : state) : Prop :=
  forall hist q rest msg,
    requests (snd (mosaic E cfg s)) = (requests s ++ hist ++ q :: rest)%list ->
    post E (requests s ++ hist)%list q = inl msg ->
    In q rest.


(** Lines 150-174 on their own: the choice between the two fills. *)
Definition fill_branch (E : env) (cfg : config) (proj : projection)
    (px : ndarray2 nat * ndarray2 nat) (masks : ndarray3 Z * list (option Q))
  : M (ndarray3 Q) :=
  let image_ids := catalog E in
  let dx := Z.to_nat (Dx proj) in
  let dy := Z.to_nat (Dy proj) in
  let '(mask_arr, fills) := masks in
  if (1 <=? Np.count_true (over_threshold fills))%nat then
    match Np.min (Np.where_ (over_threshold fills)) with
    | None => raise ValueError
    | Some k =>
        match image_ids !! k with
        | None => raise IndexError
        | Some do_id => _fill_single_id E cfg proj dx dy do_id
        end
    end
  else
    let alpha_mask := _make_alpha_mask image_ids mask_arr dx dy in
    modify (set_alpha_mask alpha_mask);;
    let run_idx := make_run_idx image_ids (fst px) (snd px) alpha_mask in
    modify (set_run_idx run_idx);;
    _fill_mosaic E cfg proj dx dy alpha_mask run_idx.

(** ** Sample builds

    A band list, a patch size and a scale; a service that serves a patch of
    zeros, and one that fails its first post only; grids taken at
    (5 E, 50 N), zone 31 north: 4 by 2 pixels with two scenes that cover
    columns 0-1 and 1-3, 2 by 2 pixels with no scene, 25 by 1 pixels with
    scenes that cover 10, 24 and 25 pixels, and one of zero width. *)

Definition cfg_rgb : config :=
  Config ["B4"; "B3"; "B2"] 2 10 "./tmp.tif" None.
Definition cfg_wide : config :=
  Config ["B4"; "B3"; "B2"] 16 10 "./tmp.tif" None.

Definition serve_zeros (hist : list request) (q : request)
  : string + (nat -> nat -> nat -> Q) :=
  inr (fun _ _ _ => 0%Q).
Definition fail_first (hist : list request) (q : request)
  : string + (nat -> nat -> nat -> Q) :=
  match hist with
  | [] => inl "timeout"
  | _ => inr (fun _ _ _ => 0%Q)
  end.

(** A footprint that covers the columns from [lo] up to [hi]. *)
Definition columns (lo hi : nat) : nat -> nat -> Z :=
  fun _ x => if (lo <=? x)%nat && (x <? hi)%nat then 1 else 0.

Definition tiles (name : string) : option (nat -> nat -> Z) :=
  if String.eqb name "31UAA" then Some (columns 0 2)
  else if String.eqb name "31UBB" then Some (columns 1 4)
  else if String.eqb name "31UCC" then Some (columns 0 10)
  else if String.eqb name "31UDD" then Some (columns 0 24)
  else if String.eqb name "31UEE" then Some (columns 0 25)
  else None.

Definition E_two_scenes : env :=
  Env (5, 50)%Q (fun _ => (500000, 5000000, 500045, 5000025)%Q)
      ["S2A_31UAA"; "S2B_31UBB"] tiles serve_zeros.
Definition E_flaky : env :=
  Env (5, 50)%Q (fun _ => (500000, 5000000, 500045, 5000025)%Q)
      ["S2A_31UAA"; "S2B_31UBB"] tiles fail_first.
Definition E_fast : env :=
  Env (5, 50)%Q (fun _ => (500000, 5000000, 500255, 5000015)%Q)
      ["S2A_31UCC"; "S2A_31UDD"; "S2A_31UEE"] tiles serve_zeros.

Definition proj_4x2 : projection :=
  Projection (500000, 5000000, 500045, 5000025)%Q
             [1 / 10; 0; 0; 1 / 10; - 500000 / 10; - 5000000 / 10]%Q
             4 2 "EPSG:32631".
Definition proj_25x1 : projection :=
  Projection (500000, 5000000, 500255, 5000015)%Q
             [1 / 10; 0; 0; 1 / 10; - 500000 / 10; - 5000000 / 10]%Q
             25 1 "EPSG:32631".

(** Three availability masks over a grid of one row and two columns. *)
Definition masks_2x1 : ndarray3 Z :=
  Np.array3 0 1 2 3 [[[1; 1; 0]; [0; 1; 1]]].

(** ** Further vocabulary *)

(** [d.get(k)] on a dict. *)
Fixpoint dict_get {V} (d : list (string * V)) (k : string) : option V :=
  match d with
  | [] => None
  | (k', v) :: d' => if String.eqb k' k then Some v else dict_get d' k
  end.

(** A service that serves every body, whatever was posted before. *)
Definition serves (E : env) (serve : request -> nat -> nat -> nat -> Q)
  : Prop :=
  forall hist q, post E hist q = inr (serve q).

(** One assignment of a fill loop: the mask, the patch and the array
    fetched; and a run of them on a buffer. *)
Definition write : Type :=
  (nat -> nat -> bool) * patch * (nat -> nat -> nat -> Q).
Definition apply_writes (P : nat) (ws : list write) (im_arr : ndarray3 Q)
  : ndarray3 Q :=
  fold_left (fun im_arr '(m, p, arr) =>
               paste im_arr (snd p * P) (fst p * P) P m arr)
            ws im_arr.

(** The assignment [w] reaches pixel [(y, x)]. *)
Definition reaches (P : nat) (w : write) (y x : nat) : Prop :=
  let '(m, p, _) := w in
  (snd p * P <= y < snd p * P + P)%nat /\
  (fst p * P <= x < fst p * P + P)%nat /\ m y x = true.

(** The item of the array of [w] that lands on pixel [(y, x)], band [b]. *)
Definition landing (P : nat) (w : write) (y x b : nat) : Q :=
  let '(_, p, arr) := w in arr (y - snd p * P)%nat (x - fst p * P)%nat b.

(** The raster that [_write_rio] hands to rasterio for a buffer. *)
Definition raster_of (cfg : config) (proj : projection) (im_arr : ndarray3 Q)
  : raster :=
  let '(b0, _, _, b3) := aoi_bounds proj in
  let '(d0, d1, _) := shape3 im_arr in
  Raster (save_path cfg) d0 d1 (length (BANDS cfg)) (UTM_EPSG proj)
         (from_origin b0 b3 (SCALE cfg) (SCALE cfg)) (transpose_201 im_arr).

(** How lines 184-186 end. *)
Definition upload (cfg : config) : result unit :=
  match cloud_dest cfg with
  | Some (String _ _) => Raise (NameError "src")
  | _ => Return tt
  end.

(** An [affine.Affine] matrix [(a, b, c, d, e, f)] applied to a column and
    a row: the ground position of that corner of a pixel. *)
Definition affine_apply (t : Q * Q * Q * Q * Q * Q) (col row : Q) : Q * Q :=
  let '(a, b, c, d, e, f) := t in
  (a * col + b * row + c, d * col + e * row + f)%Q.



(** The 4 by 2 grid with a service that serves the constant 1 for the first
    scene and the constant 2 for any other. *)
Definition serve_by_scene (q : request) : nat -> nat -> nat -> Q :=
  fun _ _ _ =>
    if String.eqb (req_name q) "projects/earthengine-public/assets/S2A_31UAA"
    then 1%Q else 2%Q.
Definition E_by_scene : env :=
  Env (5, 50)%Q (fun _ => (500000, 5000000, 500045, 5000025)%Q)
      ["S2A_31UAA"; "S2B_31UBB"] tiles (fun _ q => inr (serve_by_scene q)).


(** A grid of zero width under two scenes, with the service that fails its
    first post. *)
Definition E_flat_scenes : env :=
  Env (5, 50)%Q (fun _ => (500000, 5000000, 500000, 5000025)%Q)
      ["S2A_31UAA"; "S2B_31UBB"] tiles fail_first.
Definition proj_0x2 : projection :=
  Projection (500000, 5000000, 500000, 5000025)%Q
             [1 / 10; 0; 0; 1 / 10; - 500000 / 10; - 5000000 / 10]%Q
             0 2 "EPSG:32631".

(** * Properties *)

Local Open Scope list_scope.

(** ** [get_utm_zone] *)





Example get_utm_zone_60_5 : get_utm_zone 60 5 = "32".
Proof. reflexivity. Qed.

Example get_utm_zone_75_15 : get_utm_zone 75 15 = "33".
Proof. reflexivity. Qed.

Example get_utm_zone_montreal : get_utm_zone (461 # 10) (-(744 # 10)) = "18".
Proof. reflexivity. Qed.

(** [int] truncates: west of -180 degrees it is not the floor. *)
Example get_utm_zone_west_of_range :
  get_utm_zone 0 (-181) = "1" /\ Qfloor ((-181 + 180) / 6) + 1 = 0.
Proof. split; reflexivity. Qed.


(** ** The projection resolver *)

Section Resolver.

Variable E : env.
Variable cfg : config.


Lemma resolver_spec (proj : projection) :
  _get_proj_and_affine E cfg = Return proj ->
  let '(b0, b1, b2, b3) := resolver_bounds E in
  aoi_bounds proj = (b0, b1, b2, b3) /\
  GT proj = [1 / 10; 0; 0; 1 / 10; - b0 / 10; - b1 / 10]%Q /\
  Dx proj = Qfloor ((b2 - b0) / SCALE cfg) /\
  Dy proj = Qfloor ((b3 - b1) / SCALE cfg).
Proof.
  unfold _get_proj_and_affine, float_floordiv, resolver_bounds.
  destruct (centroid E) as [cx cy].
  destruct (utm_bounds E _) as [[[b0 b1] b2] b3].
  destruct (Qeq_bool (SCALE cfg) 0); [discriminate|].
  cbn. intros [= <-]. cbn. unfold Py.int. cbn.
  rewrite !Z.quot_1_r. auto.
Qed.

End Resolver.

(** C5, as amended.  The matrix that the resolver returns maps UTM metres
    to pixel coordinates: its two scales are equal and positive, its shear
    terms are zero, and it sends the minimum-x/minimum-y corner of the AOI
    to the pixel origin. *)
Theorem resolver_transform_maps_corner_to_origin (E : env) (cfg : config)
    (proj : projection) :
  _get_proj_and_affine E cfg = Return proj ->
  let '(b0, b1, _, _) := aoi_bounds proj in
  (exists a xoff yoff,
      GT proj = [a; 0; 0; a; xoff; yoff]%Q /\ (0 < a)%Q) /\
  (fst (affine_transform (GT proj) (b0, b1)) == 0)%Q /\
  (snd (affine_transform (GT proj) (b0, b1)) == 0)%Q.
Proof.
  intros Hres. pose proof (resolver_spec E cfg proj Hres) as Hspec.
  destruct (resolver_bounds E) as [[[b0 b1] b2] b3].
  destruct Hspec as (-> & -> & _ & _). cbn [affine_transform fst snd].
  split; [|split].
  - do 3 eexists. split; [reflexivity|]. reflexivity.
  - field.
  - field.
Qed.


(** ** The alpha assignment *)

Section Arrays.

Lemma item2_layer {A} (a : ndarray3 A) (i y x : nat) :
  item2 (Np.layer a i) y x = item3 a y x i.
Proof. destruct a as [[[d0 d1] d2] f]. reflexivity. Qed.

Lemma shape2_layer {A} (a : ndarray3 A) (i : nat) :
  shape2 (Np.layer a i) = (fst (fst (shape3 a)), snd (fst (shape3 a))).
Proof. destruct a as [[[d0 d1] d2] f]. reflexivity. Qed.

Lemma item2_sum_before (a : ndarray3 Z) (i y x : nat) :
  item2 (Np.sum_before a i) y x = prefix_sum (item3 a y x) i.
Proof. destruct a as [[[d0 d1] d2] f]. reflexivity. Qed.

Lemma fold_add_acc (l : list Z) (a : Z) :
  fold_left Z.add l a = a + fold_left Z.add l 0.
Proof.
  revert a. induction l as [|z l IH]; intros a; cbn [fold_left]; [lia|].
  rewrite (IH (a + z)), (IH (0 + z)). lia.
Qed.

Lemma prefix_sum_S (f : nat -> Z) (i : nat) :
  prefix_sum f (S i) = prefix_sum f i + f i.
Proof.
  unfold prefix_sum, Np.range. rewrite seq_S, map_app, fold_left_app.
  reflexivity.
Qed.

End Arrays.

Section AlphaMask.

Variable mask_arr : ndarray3 Z.
Variables Dx Dy : nat.

Lemma alpha_loop (ids : list string) :
  forall (a : nat) (st : ndarray2 Z * ndarray3 Z) (y x i : nat),
    item3 (snd (fold_left (alpha_step mask_arr)
                          (combine (seq a (length ids)) ids) st)) y x i =
    if (a <=? i)%nat && (i <? a + length ids)%nat
    then layer_value mask_arr y x i
    else item3 (snd st) y x i.
Proof.
  induction ids as [|_id ids IH]; intros a [main alpha] y x i.
  - simpl. replace (a + 0)%nat with a by lia.
    destruct (Nat.leb_spec a i), (Nat.ltb_spec i a); simpl;
      try reflexivity; lia.
  - cbn [length seq combine fold_left]. rewrite IH. clear IH.
    unfold alpha_step, layer_value.
    destruct (Nat.leb_spec (S a) i), (Nat.ltb_spec i (S a + length ids)),
      (Nat.leb_spec a i), (Nat.ltb_spec i (a + S (length ids)));
      cbn [andb]; try lia; try reflexivity.
    all: destruct (Nat.eqb_spec a 0); [|destruct (Nat.ltb_spec 0 a); [|lia]];
      cbn [snd Np.set_layer item3];
      destruct (Nat.eqb_spec i a); try lia; subst; try reflexivity.
    + rewrite item2_layer. reflexivity.
    + destruct (Nat.eqb_spec a 0); [lia|].
      cbn [Np.clip Np.sub item2]. rewrite item2_layer, item2_sum_before.
      reflexivity.
Qed.

Lemma alpha_item (ids : list string) (y x i : nat) :
  (i < length ids)%nat ->
  item3 (_make_alpha_mask ids mask_arr Dx Dy) y x i
  = layer_value mask_arr y x i.
Proof.
  intros Hi. unfold _make_alpha_mask, PyList.enumerate.
  rewrite alpha_loop.
  destruct (Nat.leb_spec 0 i), (Nat.ltb_spec i (0 + length ids));
    cbn [andb]; reflexivity || lia.
Qed.

End AlphaMask.

Section Partition.

Variable m : ndarray3 Z.
Variables Dx Dy N : nat.
Hypothesis m_binary : binary m Dy Dx N.
Variables y x : nat.
Hypothesis y_in : (y < Dy)%nat.
Hypothesis x_in : (x < Dx)%nat.

Lemma prefix_sum_nonneg (i : nat) :
  (i <= N)%nat -> 0 <= prefix_sum (item3 m y x) i.
Proof.
  induction i as [|i IH]; intros Hi; [reflexivity|].
  rewrite prefix_sum_S.
  destruct (m_binary y x i); try lia.
Qed.

Lemma prefix_sum_zero (i : nat) :
  (i <= N)%nat ->
  (prefix_sum (item3 m y x) i = 0 <->
   forall j, (j < i)%nat -> item3 m y x j = 0).
Proof.
  induction i as [|i IH]; intros Hi.
  - split; [intros _ j Hj; lia | reflexivity].
  - rewrite prefix_sum_S. pose proof (prefix_sum_nonneg i).
    destruct (m_binary y x i) as [H0|H1]; try lia.
    + rewrite H0, Z.add_0_r, IH by lia. split; intros Hall j Hj.
      * destruct (Nat.eq_dec j i) as [->|]; [assumption|apply Hall; lia].
      * apply Hall; lia.
    + split; [lia|]. intros Hall. rewrite (Hall i) in H1; lia.
Qed.

Lemma layer_value_one (i : nat) :
  (i < N)%nat ->
  (layer_value m y x i = 1 <->
   item3 m y x i = 1 /\ forall j, (j < i)%nat -> item3 m y x j = 0).
Proof.
  intros Hi. unfold layer_value. destruct (Nat.eqb_spec i 0) as [->|Hne].
  - split; [intros H; split; [assumption|intros j Hj; lia] | tauto].
  - rewrite <- prefix_sum_zero by lia.
    pose proof (prefix_sum_nonneg i). destruct (m_binary y x i); lia.
Qed.

Lemma layer_value_binary (i : nat) :
  (i < N)%nat -> layer_value m y x i = 0 \/ layer_value m y x i = 1.
Proof.
  intros Hi. unfold layer_value.
  destruct (Nat.eqb_spec i 0) as [->|Hne]; [apply m_binary; assumption|lia].
Qed.

Lemma first_covering (n : nat) :
  (n <= N)%nat ->
  (forall j, (j < n)%nat -> item3 m y x j = 0) \/
  (exists k, (k < n)%nat /\ item3 m y x k = 1 /\
             forall j, (j < k)%nat -> item3 m y x j = 0).
Proof.
  induction n as [|n IH]; intros Hn; [left; intros j Hj; lia|].
  destruct IH as [Hall|(k & Hk & H1 & Hall)]; [lia| |].
  - destruct (m_binary y x n) as [H0|H1]; try lia.
    + left. intros j Hj.
      destruct (Nat.eq_dec j n) as [->|]; [assumption|apply Hall; lia].
    + right. exists n. auto.
  - right. exists k. auto.
Qed.

End Partition.

(** C1.  For binary availability masks, the layers that [_make_alpha_mask]
    computes are binary, no pixel of the grid is 1 in two layers, and a pixel
    is 1 in some layer exactly when it is 1 in some availability mask. *)
Theorem alpha_layers_partition (image_ids : list string)
    (mask_arr : ndarray3 Z) (Dx Dy : nat) :
  binary mask_arr Dy Dx (length image_ids) ->
  let alpha_mask := _make_alpha_mask image_ids mask_arr Dx Dy in
  let N := length image_ids in
  forall y x, (y < Dy)%nat -> (x < Dx)%nat ->
    (forall i, (i < N)%nat ->
       item3 alpha_mask y x i = 0 \/ item3 alpha_mask y x i = 1) /\
    (forall i j, (i < N)%nat -> (j < N)%nat ->
       item3 alpha_mask y x i = 1 -> item3 alpha_mask y x j = 1 -> i = j) /\
    ((exists i, (i < N)%nat /\ item3 alpha_mask y x i = 1) <->
     (exists i, (i < N)%nat /\ item3 mask_arr y x i = 1)).
Proof.
  intros Hbin alpha_mask N y x Hy Hx. subst alpha_mask N.
  pose proof (layer_value_one mask_arr Dx Dy _ Hbin y x Hy Hx) as Hone.
  split; [|split].
  - intros i Hi. rewrite alpha_item by assumption.
    exact (layer_value_binary mask_arr Dx Dy _ Hbin y x Hy Hx i Hi).
  - intros i j Hi Hj. rewrite !alpha_item by assumption.
    rewrite (Hone i Hi), (Hone j Hj). intros [Hi1 Hi0] [Hj1 Hj0].
    destruct (Nat.lt_trichotomy i j) as [Hlt|[Heq|Hgt]]; [|assumption|].
    + rewrite (Hj0 i Hlt) in Hi1. discriminate.
    + rewrite (Hi0 j Hgt) in Hj1. discriminate.
  - split; intros (i & Hi & H1).
    + rewrite alpha_item in H1 by assumption. exists i. split; [assumption|].
      apply (Hone i Hi). assumption.
    + destruct (first_covering mask_arr Dx Dy _ Hbin y x Hy Hx
                  (length image_ids) (Nat.le_refl _))
        as [Hall|(k & Hk & Hk1 & Hk0)].
      * rewrite (Hall i Hi) in H1. discriminate.
      * exists k. split; [assumption|]. rewrite alpha_item by assumption.
        apply (Hone k Hk). auto.
Qed.

(** ** The fast-path threshold *)

Section Threshold.

Lemma gtP (a b : Q) : reflect (b < a)%Q (Py.gt a b).
Proof.
  unfold Py.gt. destruct (Qle_bool a b) eqn:H; constructor.
  - apply Qle_bool_iff in H. lra.
  - apply Qnot_le_lt. intros H'. apply Qle_bool_iff in H'. congruence.
Qed.






End Threshold.

(** ** Runs of the fill loops *)

Section Runs.

Variable E : env.
Variable cfg : config.
Variable proj : projection.

Lemma run_bind {A B} (c : M A) (k : A -> M B) (s : state) :
  (c ≫= k) s = match c s with
               | (Return a, s') => k a s'
               | (Raise e, s') => (Raise e, s')
               end.
Proof. reflexivity. Qed.

Lemma run_ret {A} (a : A) (s : state) : (mret a : M A) s = (Return a, s).
Proof. reflexivity. Qed.

Lemma with_requests_nil (s : state) : with_requests s [] = s.
Proof.
  destruct s. unfold with_requests. simpl. rewrite app_nil_r. reflexivity.
Qed.

Lemma with_requests_app (s : state) (l l' : list request) :
  with_requests (with_requests s l) l' = with_requests s (l ++ l').
Proof. unfold with_requests. simpl. rewrite app_assoc. reflexivity. Qed.

Lemma fetch_run (_id : string) (p : patch) (s : state) :
  fetch E cfg proj _id p s =
  (match post E (requests s) (request_for cfg proj _id p) with
   | inr arr => Return arr
   | inl msg => Raise (RemoteError msg)
   end,
   with_requests s [request_for cfg proj _id p]).
Proof.
  destruct p as [ii_x ii_y]. unfold fetch, _get_GEE_arr, request_for.
  cbn [fst snd]. destruct (post E _ _); reflexivity.
Qed.

Lemma shape3_paste (im : ndarray3 Q) (y0 x0 P : nat) m arr :
  shape3 (paste im y0 x0 P m arr) = shape3 im.
Proof. reflexivity. Qed.

Lemma issue_app (p1 p2 : list request) :
  forall hist,
    issue E hist (p1 ++ p2) =
    match issue E hist p1 with
    | (sent1, None) =>
        let '(sent2, failure) := issue E (hist ++ sent1) p2 in
        (sent1 ++ sent2, failure)
    | (sent1, Some msg) => (sent1, Some msg)
    end.
Proof.
  induction p1 as [|q p1 IH]; intros hist; cbn [app issue].
  - rewrite app_nil_r. destruct (issue E hist p2). reflexivity.
  - destruct (post E hist q); [reflexivity|]. rewrite IH.
    destruct (issue E (hist ++ [q]) p1) as [sent1 [msg|]]; [reflexivity|].
    rewrite <- app_assoc. cbn [app].
    destruct (issue E (hist ++ q :: sent1) p2). reflexivity.
Qed.

Lemma runs_fetch_loop {X} (_id : string) (to_patch : X -> patch)
    (g : ndarray3 Q -> X -> (nat -> nat -> nat -> Q) -> ndarray3 Q)
    (body : ndarray3 Q -> X -> M (ndarray3 Q))
    (Hg : forall im x arr, shape3 (g im x arr) = shape3 im)
    (Hbody : forall im x s,
        body im x s =
        (arr ← fetch E cfg proj _id (to_patch x); mret (g im x arr)) s)
    (xs : list X) :
  forall im,
    runs_plan E (for_each xs body im) (shape3 im)
              (map (fun x => request_for cfg proj _id (to_patch x)) xs).
Proof.
  induction xs as [|x xs IH]; intros im s.
  - exists (Return im). cbn. rewrite with_requests_nil. eauto.
  - cbn [for_each map issue]. rewrite run_bind, Hbody, run_bind, fetch_run.
    destruct (post E (requests s) (request_for cfg proj _id (to_patch x)))
      as [msg|arr].
    + exists (Raise (RemoteError msg)). cbn. auto.
    + rewrite run_ret.
      destruct (IH (g im x arr)
                   (with_requests s [request_for cfg proj _id (to_patch x)]))
        as (r & Hrun & Hr).
      exists r. rewrite Hrun. cbn [requests with_requests] in *.
      destruct (issue E _ _) as [sent failure]. cbn [fst snd] in *.
      rewrite with_requests_app. split; [reflexivity|].
      destruct failure; [assumption|].
      destruct Hr as (im' & -> & Hs). exists im'. rewrite Hs, Hg. auto.
Qed.

Lemma runs_for_each {X} (plan : X -> list request)
    (body : ndarray3 Q -> X -> M (ndarray3 Q))
    (Hbody : forall x im, runs_plan E (body im x) (shape3 im) (plan x))
    (xs : list X) :
  forall im, runs_plan E (for_each xs body im) (shape3 im) (flat_map plan xs).
Proof.
  induction xs as [|x xs IH]; intros im s.
  - exists (Return im). cbn. rewrite with_requests_nil. eauto.
  - cbn [for_each flat_map]. rewrite run_bind, issue_app.
    destruct (Hbody x im s) as (r1 & -> & Hr1).
    destruct (issue E (requests s) (plan x)) as [sent1 [msg|]];
      cbn [fst snd] in *.
    + subst r1. eexists. split; reflexivity.
    + destruct Hr1 as (im1 & -> & Hs1).
      destruct (IH im1 (with_requests s sent1)) as (r & -> & Hr).
      cbn [requests with_requests] in *.
      destruct (issue E (requests s ++ sent1) (flat_map plan xs))
        as [sent2 failure]. cbn [fst snd] in *.
      exists r. rewrite with_requests_app. split; [reflexivity|].
      rewrite <- Hs1. exact Hr.
Qed.

Lemma flat_map_map {X Y Z} (f : Y -> Z) (g : X -> list Y) (xs : list X) :
  flat_map (fun x => map f (g x)) xs = map f (flat_map g xs).
Proof.
  induction xs as [|x xs IH]; [reflexivity|].
  cbn [flat_map]. rewrite map_app, IH. reflexivity.
Qed.

Lemma runs_fill_single_id (Dx Dy : nat) (_id : string) :
  PATCH_SIZE cfg <> 0%nat ->
  runs_plan E (_fill_single_id E cfg proj Dx Dy _id)
            (Dy, Dx, length (BANDS cfg))
            (map (request_for cfg proj _id) (grid_patches cfg Dx Dy)).
Proof.
  intros HP. unfold _fill_single_id, floordiv.
  destruct (Nat.eqb_spec (PATCH_SIZE cfg) 0) as [|_]; [contradiction|].
  intros s. rewrite run_bind. unfold lift at 1.
  unfold grid_patches. rewrite <- flat_map_map.
  apply (runs_for_each
           (fun ii_x => map (request_for cfg proj _id)
                            (map (pair ii_x)
                                 (Np.range (Dy / PATCH_SIZE cfg + 1))))).
  intros ii_x im s'. rewrite run_bind. unfold lift at 1.
  rewrite map_map.
  apply (runs_fetch_loop _id (pair ii_x)
           (fun im ii_y arr => paste im (ii_y * PATCH_SIZE cfg)
                                  (ii_x * PATCH_SIZE cfg) (PATCH_SIZE cfg)
                                  (fun _ _ => true) arr)); reflexivity.
Qed.

Lemma flat_map_enumerate {X Y} (f : X -> list Y) (l : list X) :
  flat_map (fun e => f (snd e)) (PyList.enumerate l) = flat_map f l.
Proof.
  unfold PyList.enumerate. generalize 0%nat.
  induction l as [|x l IH]; intros a; [reflexivity|].
  cbn [length seq combine flat_map snd]. rewrite IH. reflexivity.
Qed.

Lemma runs_fill_mosaic (Dx Dy : nat) (alpha_mask : ndarray3 Z)
    (run_idx : list (string * list patch)) :
  runs_plan E (_fill_mosaic E cfg proj Dx Dy alpha_mask run_idx)
            (Dy, Dx, length (BANDS cfg))
            (map (fun sp => request_for cfg proj (fst sp) (snd sp))
                 (fetch_plan run_idx)).
Proof.
  unfold _fill_mosaic, fetch_plan.
  rewrite <- flat_map_map,
    <- (flat_map_enumerate
          (fun sv => map (fun sp => request_for cfg proj (fst sp) (snd sp))
                         (let '(_id, vv) := sv in map (pair _id) vv))).
  apply (runs_for_each
           (fun e => map (fun sp => request_for cfg proj (fst sp) (snd sp))
                         (let '(_id, vv) := snd e in map (pair _id) vv))).
  intros [ii [_id vv]] im. cbn [snd]. rewrite map_map. cbn [fst snd].
  apply (runs_fetch_loop _id (fun p => p)
           (fun im p arr => paste im (snd p * PATCH_SIZE cfg)
                                  (fst p * PATCH_SIZE cfg) (PATCH_SIZE cfg)
                                  (fun y x => 0 <? item3 alpha_mask y x ii)
                                  arr)); [reflexivity|].
  intros im' [ii_x ii_y] s. reflexivity.
Qed.

End Runs.

(** ** The two paths of a build *)

Section Finish.

Variable E : env.
Variable cfg : config.
Variable proj : projection.

Lemma finish_run (im_arr : ndarray3 Q) (s : state) :
  exists r ras,
    finish cfg proj im_arr s = (r, add_raster ras (set_im_arr im_arr s)) /\
    ras_width ras = fst (fst (shape3 im_arr)) /\
    ras_height ras = snd (fst (shape3 im_arr)) /\
    ras_data ras = transpose_201 im_arr /\
    (cloud_dest cfg = None -> r = Return tt) /\
    (forall msg, r <> Raise (RemoteError msg)).
Proof.
  unfold finish, _write_rio.
  destruct (aoi_bounds proj) as [[[b0 b1] b2] b3].
  destruct (shape3 im_arr) as [[d0 d1] d2] eqn:Hshape.
  rewrite !run_bind. unfold modify.
  destruct (cloud_dest cfg) as [[|c d]|]; cbn;
    (eexists; eexists; split; [reflexivity|]); cbn;
    repeat split; intros; congruence.
Qed.

(** A fill that posts [plan], followed by lines 177-186. *)
Lemma fill_then_finish (c : M (ndarray3 Q)) (sh : nat * nat * nat)
    (plan : list request) (s : state) :
  runs_plan E c sh plan ->
  exists r s',
    (im_arr ← c; finish cfg proj im_arr) s = (r, s') /\
    requests s' = requests s ++ fst (issue E (requests s) plan) /\
    self_proj s' = self_proj s /\
    self_alpha_mask s' = self_alpha_mask s /\
    self_run_idx s' = self_run_idx s /\
    match snd (issue E (requests s) plan) with
    | Some msg =>
        r = Raise (RemoteError msg) /\
        self_im_arr s' = self_im_arr s /\ rasters s' = rasters s
    | None =>
        exists im_arr ras,
          shape3 im_arr = sh /\ self_im_arr s' = Some im_arr /\
          rasters s' = rasters s ++ [ras] /\
          ras_width ras = fst (fst sh) /\ ras_height ras = snd (fst sh) /\
          ras_data ras = transpose_201 im_arr /\
          (cloud_dest cfg = None -> r = Return tt) /\
          (forall msg, r <> Raise (RemoteError msg))
    end.
Proof.
  intros Hc. destruct (Hc s) as (r1 & Hrun & Hr1).
  rewrite run_bind, Hrun.
  destruct (issue E (requests s) plan) as [sent [msg|]]; cbn [fst snd] in *.
  - subst r1. eexists; eexists. split; [reflexivity|]. cbn. auto 10.
  - destruct Hr1 as (im & -> & Hsh).
    destruct (finish_run im (with_requests s sent))
      as (r & ras & -> & Hw & Hh & Hd & Hret & Hnot).
    eexists; eexists. split; [reflexivity|]. cbn.
    repeat (split; [reflexivity|]).
    exists im, ras. rewrite <- Hsh. auto 10.
Qed.

End Finish.

Section Build.

Variable E : env.
Variable cfg : config.
Variable proj : projection.
Variable px : ndarray2 nat * ndarray2 nat.
Variable mask_arr : ndarray3 Z.
Variable fills : list (option Q).

Hypothesis resolved : _get_proj_and_affine E cfg = Return proj.
Hypothesis indexed : _make_pixel_indexer cfg (Dx proj) (Dy proj) = Return px.
Hypothesis masked :
  _mask_by_id E (catalog E) (Z.to_nat (Dx proj)) (Z.to_nat (Dy proj))
  = Return (mask_arr, fills).


Lemma mosaic_multi_scene (s : state) :
  (1 <=? Np.count_true (over_threshold fills))%nat = false ->
  mosaic E cfg s =
  (let alpha_mask :=
     _make_alpha_mask (catalog E) mask_arr (Z.to_nat (Dx proj))
                      (Z.to_nat (Dy proj)) in
   let run_idx := make_run_idx (catalog E) (fst px) (snd px) alpha_mask in
   im_arr ← _fill_mosaic E cfg proj (Z.to_nat (Dx proj))
                         (Z.to_nat (Dy proj)) alpha_mask run_idx;
   finish cfg proj im_arr)
    (set_run_idx
       (make_run_idx (catalog E) (fst px) (snd px)
                     (_make_alpha_mask (catalog E) mask_arr
                                       (Z.to_nat (Dx proj))
                                       (Z.to_nat (Dy proj))))
       (set_alpha_mask (_make_alpha_mask (catalog E) mask_arr
                                         (Z.to_nat (Dx proj))
                                         (Z.to_nat (Dy proj)))
                       (prepared E proj px (mask_arr, fills) s))).
Proof.
  intros Hcount. unfold mosaic.
  rewrite run_bind. unfold lift at 1. rewrite resolved.
  rewrite run_bind. unfold modify at 1.
  rewrite run_bind. unfold modify at 1.
  rewrite run_bind. unfold lift at 1. rewrite indexed.
  rewrite run_bind. unfold modify at 1.
  rewrite run_bind. unfold lift at 1. rewrite masked.
  rewrite run_bind. unfold modify at 1.
  rewrite Hcount. reflexivity.
Qed.


End Build.

(** ** The pixel indexer and the patches of a scene *)

Section Indexer.

Variable P : nat.
Hypothesis P_pos : P <> 0%nat.

Lemma in_patch_div (i n : nat) :
  (i * P <= n < (i + 1) * P)%nat <-> (n / P)%nat = i.
Proof.
  split.
  - intros H. symmetry. apply (Nat.div_unique n P i (n - i * P)); lia.
  - intros <-. pose proof (Nat.Div0.mul_div_le n P).
    pose proof (Nat.mul_succ_div_gt n P P_pos). lia.
Qed.

Lemma set_cols_loop (n : nat) :
  forall (a : nat) (px : ndarray2 nat) (y x : nat),
    item2 (fold_left
             (fun px idx => Np.set_cols px (idx * P) ((idx + 1) * P) idx)
                     (seq a n) px) y x =
    if (a * P <=? x)%nat && (x <? (a + n) * P)%nat then (x / P)%nat
    else item2 px y x.
Proof.
  induction n as [|n IH]; intros a px y x.
  - cbn [seq fold_left]. rewrite Nat.add_0_r.
    destruct (Nat.leb_spec (a * P) x), (Nat.ltb_spec x (a * P));
      cbn [andb]; reflexivity || lia.
  - cbn [seq fold_left]. rewrite IH. cbn [Np.set_cols item2].
    destruct (Nat.leb_spec (S a * P) x), (Nat.ltb_spec x ((S a + n) * P)),
      (Nat.leb_spec (a * P) x), (Nat.ltb_spec x ((a + S n) * P)),
      (Nat.ltb_spec x ((a + 1) * P));
      cbn [andb]; try reflexivity; try lia.
    symmetry. apply in_patch_div. lia.
Qed.

Lemma set_rows_loop (n : nat) :
  forall (a : nat) (px : ndarray2 nat) (y x : nat),
    item2 (fold_left
             (fun px idy => Np.set_rows px (idy * P) ((idy + 1) * P) idy)
                     (seq a n) px) y x =
    if (a * P <=? y)%nat && (y <? (a + n) * P)%nat then (y / P)%nat
    else item2 px y x.
Proof.
  induction n as [|n IH]; intros a px y x.
  - cbn [seq fold_left]. rewrite Nat.add_0_r.
    destruct (Nat.leb_spec (a * P) y), (Nat.ltb_spec y (a * P));
      cbn [andb]; reflexivity || lia.
  - cbn [seq fold_left]. rewrite IH. cbn [Np.set_rows item2].
    destruct (Nat.leb_spec (S a * P) y), (Nat.ltb_spec y ((S a + n) * P)),
      (Nat.leb_spec (a * P) y), (Nat.ltb_spec y ((a + S n) * P)),
      (Nat.ltb_spec y ((a + 1) * P));
      cbn [andb]; try reflexivity; try lia.
    symmetry. apply in_patch_div. lia.
Qed.

Lemma below_last_patch (n d : nat) : (n < d -> n < (0 + (d / P + 1)) * P)%nat.
Proof. pose proof (Nat.mul_succ_div_gt d P P_pos). lia. Qed.

End Indexer.

(** Every pixel of the grid is indexed by the patch it lies in. *)
Lemma pixel_indexer_items (cfg : config) (Dx Dy : Z)
    (px_x px_y : ndarray2 nat) :
  _make_pixel_indexer cfg Dx Dy = Return (px_x, px_y) ->
  forall y x, (y < Z.to_nat Dy)%nat -> (x < Z.to_nat Dx)%nat ->
    item2 px_x y x = (x / PATCH_SIZE cfg)%nat /\
    item2 px_y y x = (y / PATCH_SIZE cfg)%nat.
Proof.
  unfold _make_pixel_indexer. generalize (PATCH_SIZE cfg). intros P.
  destruct (_ || _); [discriminate|].
  destruct (Nat.eqb_spec P 0) as [|P_pos]; [discriminate|].
  intros [= <- <-] y x Hy Hx. unfold Np.range.
  rewrite (set_cols_loop P P_pos), (set_rows_loop P P_pos).
  pose proof (below_last_patch P P_pos x _ Hx).
  pose proof (below_last_patch P P_pos y _ Hy).
  destruct (Nat.leb_spec (0 * P) x),
    (Nat.ltb_spec x ((0 + (Z.to_nat Dx / P + 1)) * P)),
    (Nat.leb_spec (0 * P) y),
    (Nat.ltb_spec y ((0 + (Z.to_nat Dy / P + 1)) * P));
    cbn [andb]; lia || auto.
Qed.

Section OwnedPatches.

Lemma combine_app_same {A B} (l1 l2 : list A) (k1 k2 : list B) :
  length l1 = length k1 ->
  combine (l1 ++ l2) (k1 ++ k2) = combine l1 k1 ++ combine l2 k2.
Proof.
  revert k1. induction l1 as [|a l1 IH]; intros [|b k1] Hlen;
    try discriminate; [reflexivity|].
  cbn. f_equal. apply IH. simpl in Hlen. lia.
Qed.

Lemma combine_flat_map {X A B} (f : X -> list A) (g : X -> list B)
    (l : list X) :
  (forall x, length (f x) = length (g x)) ->
  combine (flat_map f l) (flat_map g l) =
  flat_map (fun x => combine (f x) (g x)) l.
Proof.
  intros Hlen. induction l as [|x l IH]; [reflexivity|].
  cbn [flat_map]. rewrite combine_app_same by apply Hlen.
  rewrite IH. reflexivity.
Qed.

Lemma length_flat_map_same {X A B} (f : X -> list A) (g : X -> list B)
    (l : list X) :
  (forall x, length (f x) = length (g x)) ->
  length (flat_map f l) = length (flat_map g l).
Proof.
  intros Hlen. induction l as [|x l IH]; [reflexivity|].
  cbn [flat_map]. rewrite !length_app, IH, Hlen. reflexivity.
Qed.

(** The pairs that line 168 zips: one per pixel where [m > 0]. *)
Lemma in_zip_select {A B} (a : ndarray2 A) (b : ndarray2 B) (m : ndarray2 Z)
    (u : A) (v : B) :
  In (u, v) (combine (Np.select_pos a m) (Np.select_pos b m)) <->
  exists y x, (y < fst (shape2 m))%nat /\ (x < snd (shape2 m))%nat /\
              0 < item2 m y x /\ u = item2 a y x /\ v = item2 b y x.
Proof.
  unfold Np.select_pos, Np.range.
  rewrite combine_flat_map.
  2:{ intros y. apply length_flat_map_same. intros x.
      destruct (0 <? item2 m y x); reflexivity. }
  rewrite in_flat_map. split.
  - intros (y & Hy & Hin). rewrite combine_flat_map in Hin.
    2:{ intros x. destruct (0 <? item2 m y x); reflexivity. }
    apply in_flat_map in Hin. destruct Hin as (x & Hx & Hin).
    apply in_seq in Hy, Hx.
    destruct (Z.ltb_spec 0 (item2 m y x)); [|destruct Hin].
    destruct Hin as [[= <- <-]|[]]. exists y, x. repeat split; lia.
  - intros (y & x & Hy & Hx & Hm & -> & ->). exists y. split.
    + apply in_seq. lia.
    + rewrite combine_flat_map.
      2:{ intros x'. destruct (0 <? item2 m y x'); reflexivity. }
      apply in_flat_map. exists x. split; [apply in_seq; lia|].
      destruct (Z.ltb_spec 0 (item2 m y x)); [left; reflexivity|lia].
Qed.

Lemma shape3_alpha_loop (mask_arr : ndarray3 Z) (l : list (nat * string)) :
  forall st, shape3 (snd (fold_left (alpha_step mask_arr) l st))
             = shape3 (snd st).
Proof.
  induction l as [|[ii _id] l IH]; intros [main alpha]; [reflexivity|].
  cbn [fold_left]. rewrite IH. unfold alpha_step.
  destruct (ii =? 0)%nat; [reflexivity|]. destruct (0 <? ii)%nat; reflexivity.
Qed.

Lemma shape3_make_alpha_mask (ids : list string) (mask_arr : ndarray3 Z)
    (Dx Dy : nat) :
  shape3 (_make_alpha_mask ids mask_arr Dx Dy) = (Dy, Dx, length ids).
Proof. unfold _make_alpha_mask. rewrite shape3_alpha_loop. reflexivity. Qed.

Variable cfg : config.
Variables Dx Dy : Z.
Variables px_x px_y : ndarray2 nat.
Hypothesis indexed : _make_pixel_indexer cfg Dx Dy = Return (px_x, px_y).

Lemma indexed_patch_size : PATCH_SIZE cfg <> 0%nat.
Proof.
  intros HP. revert indexed. unfold _make_pixel_indexer. rewrite HP.
  destruct (_ || _); discriminate.
Qed.

Variable alpha_mask : ndarray3 Z.
Variable N : nat.
Hypothesis alpha_shape : shape3 alpha_mask = (Z.to_nat Dy, Z.to_nat Dx, N).

Lemma owned_patches_spec (ii : nat) (p : patch) :
  p ∈ owned_patches px_x px_y alpha_mask ii <->
  owns_in_patch cfg alpha_mask (Z.to_nat Dx) (Z.to_nat Dy) ii p.
Proof.
  unfold owned_patches, PyList.list_set, owns_in_patch, patch_contains.
  rewrite elem_of_elements, elem_of_list_to_set, list_elem_of_In.
  destruct p as [u v]. etransitivity; [apply in_zip_select|].
  rewrite shape2_layer, alpha_shape.
  cbn [fst snd]. pose proof indexed_patch_size as HP.
  split; intros (y & x & Hy & Hx & Hm & Hp); exists y, x;
    rewrite item2_layer in *;
    destruct (pixel_indexer_items cfg Dx Dy px_x px_y indexed y x Hy Hx)
      as [Hpx Hpy];
    (repeat split; try assumption).
  - destruct Hp as [-> _]. rewrite Hpx.
    apply (in_patch_div (PATCH_SIZE cfg) HP). reflexivity.
  - destruct Hp as [-> _]. rewrite Hpx.
    apply (in_patch_div (PATCH_SIZE cfg) HP). reflexivity.
  - destruct Hp as [_ ->]. rewrite Hpy.
    apply (in_patch_div (PATCH_SIZE cfg) HP). reflexivity.
  - destruct Hp as [_ ->]. rewrite Hpy.
    apply (in_patch_div (PATCH_SIZE cfg) HP). reflexivity.
  - rewrite Hpx. symmetry. apply (in_patch_div (PATCH_SIZE cfg) HP). tauto.
  - rewrite Hpy. symmetry. apply (in_patch_div (PATCH_SIZE cfg) HP). tauto.
Qed.

Lemma owned_patches_NoDup (ii : nat) :
  NoDup (owned_patches px_x px_y alpha_mask ii).
Proof. unfold owned_patches, PyList.list_set. apply NoDup_elements. Qed.

End OwnedPatches.

Section RunIndex.

Lemma dict_set_fresh {V} (d : list (string * V)) (k : string) (v : V) :
  ~ In k (map fst d) -> PyList.dict_set d k v = d ++ [(k, v)].
Proof.
  induction d as [|[k' v'] d IH]; intros Hk; [reflexivity|].
  cbn [PyList.dict_set]. destruct (String.eqb_spec k' k) as [->|_].
  - exfalso. apply Hk. left. reflexivity.
  - cbn [app]. rewrite IH; [reflexivity|]. intros Hin. apply Hk. right.
    assumption.
Qed.

Lemma run_idx_loop (F : nat -> list patch) (l : list string) :
  forall (a : nat) (d : list (string * list patch)),
    List.NoDup (map fst d ++ l) ->
    fold_left (fun run_idx '(ii, _id) => PyList.dict_set run_idx _id (F ii))
              (combine (seq a (length l)) l) d =
    d ++ map (fun e => (snd e, F (fst e))) (combine (seq a (length l)) l).
Proof.
  induction l as [|_id l IH]; intros a d Hnd.
  - cbn. rewrite app_nil_r. reflexivity.
  - cbn [length seq combine fold_left map fst snd].
    apply List.NoDup_remove in Hnd. destruct Hnd as [Hnd Hfresh].
    rewrite dict_set_fresh.
    2:{ intros Hin. apply Hfresh. apply in_or_app. left. assumption. }
    rewrite IH.
    + rewrite <- app_assoc. reflexivity.
    + rewrite map_app. cbn [map fst]. rewrite <- app_assoc. cbn [app].
      apply List.NoDup_Add with (a := _id) (l := map fst d ++ l).
      * apply Add_app.
      * split; [assumption|]. exact Hfresh.
Qed.

Lemma make_run_idx_distinct (ids : list string) (px_x px_y : ndarray2 nat)
    (alpha_mask : ndarray3 Z) :
  List.NoDup ids ->
  make_run_idx ids px_x px_y alpha_mask =
  map (fun e => (snd e, owned_patches px_x px_y alpha_mask (fst e)))
      (PyList.enumerate ids).
Proof.
  intros Hnd. unfold make_run_idx, PyList.enumerate.
  rewrite (run_idx_loop (owned_patches px_x px_y alpha_mask)); [reflexivity|].
  exact Hnd.
Qed.

Lemma map_snd_enumerate {A} (l : list A) :
  map snd (PyList.enumerate l) = l.
Proof.
  unfold PyList.enumerate. generalize 0%nat.
  induction l as [|x l IH]; intros a; [reflexivity|].
  cbn [length seq combine map snd]. f_equal. apply IH.
Qed.

Lemma in_enumerate {A} (l : list A) (i : nat) (x : A) :
  In (i, x) (PyList.enumerate l) <-> l !! i = Some x.
Proof.
  unfold PyList.enumerate.
  assert (H : forall a, In (i, x) (combine (seq a (length l)) l) <->
                        (a <= i)%nat /\ l !! (i - a)%nat = Some x).
  { induction l as [|y l IH]; intros a.
    - cbn. rewrite lookup_nil. split; [tauto|intros [_ H]; discriminate].
    - cbn [length seq combine In]. rewrite IH. split.
      + intros [[= <- <-]|[Hle Hl]].
        * rewrite Nat.sub_diag. split; [lia|reflexivity].
        * split; [lia|]. replace (i - a)%nat with (S (i - S a)) by lia.
          exact Hl.
      + intros [Hle Hl]. destruct (Nat.eq_dec a i) as [->|Hne].
        * rewrite Nat.sub_diag in Hl. injection Hl as ->. left. reflexivity.
        * right. split; [lia|].
          replace (i - a)%nat with (S (i - S a)) in Hl by lia. exact Hl. }
  rewrite H, Nat.sub_0_r. split; [tauto|]. split; [lia|assumption].
Qed.

Lemma in_fetch_plan (kvs : list (string * list patch)) (_id : string)
    (p : patch) :
  In (_id, p) (fetch_plan kvs) <-> exists vv, In (_id, vv) kvs /\ In p vv.
Proof.
  unfold fetch_plan. rewrite in_flat_map. split.
  - intros ([k vv] & Hkv & Hin). apply in_map_iff in Hin.
    destruct Hin as (q & [= <- <-] & Hq). exists vv. auto.
  - intros (vv & Hkv & Hp). exists (_id, vv). split; [assumption|].
    apply in_map. assumption.
Qed.

Lemma calls_for_absent (kvs : list (string * list patch)) (_id : string) :
  ~ In _id (map fst kvs) -> calls_for _id (fetch_plan kvs) = [].
Proof.
  induction kvs as [|[k vv] kvs IH]; intros Hid; [reflexivity|].
  unfold calls_for, fetch_plan in *. cbn [flat_map]. rewrite List.filter_app.
  rewrite IH by (intros Hin; apply Hid; right; assumption).
  rewrite app_nil_r. cbn [map fst] in Hid.
  induction vv as [|p vv IHvv]; [reflexivity|].
  cbn [map List.filter fst]. destruct (String.eqb_spec k _id) as [->|_].
  - exfalso. apply Hid. left. reflexivity.
  - exact IHvv.
Qed.

Lemma calls_for_same (_id : string) (vv : list patch) :
  List.filter (fun sp : string * patch => String.eqb (fst sp) _id)
              (map (pair _id) vv) = map (pair _id) vv.
Proof.
  induction vv as [|p vv IH]; [reflexivity|].
  cbn [map List.filter fst]. rewrite String.eqb_refl, IH. reflexivity.
Qed.

Lemma calls_for_present (kvs : list (string * list patch)) (_id : string)
    (vv : list patch) :
  List.NoDup (map fst kvs) -> In (_id, vv) kvs ->
  calls_for _id (fetch_plan kvs) = map (pair _id) vv.
Proof.
  induction kvs as [|[k v] kvs IH]; intros Hnd Hin; [destruct Hin|].
  cbn [map fst] in Hnd. apply List.NoDup_cons_iff in Hnd.
  destruct Hnd as [Hk Hnd].
  change (calls_for _id (map (pair k) v ++ fetch_plan kvs) = map (pair _id) vv).
  unfold calls_for. rewrite List.filter_app.
  fold (calls_for _id (fetch_plan kvs)).
  destruct Hin as [[= -> ->]|Hin].
  - rewrite calls_for_same, calls_for_absent by assumption.
    apply app_nil_r.
  - rewrite IH by assumption.
    assert (Hne : k <> _id).
    { intros ->. apply Hk. apply (in_map fst) in Hin. exact Hin. }
    clear -Hne. induction v as [|p v IHv]; [reflexivity|].
    cbn [map List.filter fst].
    destruct (String.eqb_spec k _id); [contradiction|].
    exact IHv.
Qed.

Lemma fetch_plan_NoDup (kvs : list (string * list patch)) :
  List.NoDup (map fst kvs) ->
  (forall k vv, In (k, vv) kvs -> List.NoDup vv) ->
  List.NoDup (fetch_plan kvs).
Proof.
  induction kvs as [|[k v] kvs IH]; intros Hnd Hvv; [constructor|].
  cbn [map fst] in Hnd. apply List.NoDup_cons_iff in Hnd.
  destruct Hnd as [Hk Hnd].
  change (List.NoDup (map (pair k) v ++ fetch_plan kvs)).
  apply List.NoDup_app.
  - apply List.NoDup_map_inv with (f := snd). rewrite map_map. cbn [snd].
    rewrite map_id. apply (Hvv k v). left. reflexivity.
  - apply IH; [assumption|]. intros k' vv Hin. apply (Hvv k' vv). right.
    assumption.
  - intros [k' p] Hin1 Hin2. apply in_map_iff in Hin1.
    destruct Hin1 as (q & [= <- <-] & _).
    apply in_fetch_plan in Hin2. destruct Hin2 as (vv & Hin & _).
    apply Hk. apply (in_map fst) in Hin. exact Hin.
Qed.

End RunIndex.

Section MultiScene.

Variable E : env.
Variable cfg : config.
Variable proj : projection.
Variable px : ndarray2 nat * ndarray2 nat.
Variable mask_arr : ndarray3 Z.
Variable fills : list (option Q).

Hypothesis resolved : _get_proj_and_affine E cfg = Return proj.
Hypothesis indexed : _make_pixel_indexer cfg (Dx proj) (Dy proj) = Return px.
Hypothesis masked :
  _mask_by_id E (catalog E) (Z.to_nat (Dx proj)) (Z.to_nat (Dy proj))
  = Return (mask_arr, fills).

Lemma none_over_threshold :
  (forall j g, fills !! j = Some (Some g) -> (g <= 95 # 100)%Q) ->
  (1 <=? Np.count_true (over_threshold fills))%nat = false.
Proof.
  intros Hlow. apply Nat.leb_gt. unfold Np.count_true.
  assert (Hall : forall b, In b (over_threshold fills) -> b = false).
  { intros b Hb. unfold over_threshold in Hb. apply in_map_iff in Hb.
    destruct Hb as ([g|] & <- & Hin); [|reflexivity].
    apply list_elem_of_In, list_elem_of_lookup in Hin. destruct Hin as [j Hj].
    destruct (gtP g (95 # 100)); [|reflexivity].
    specialize (Hlow j g Hj). lra. }
  induction (over_threshold fills) as [|b l IH]; [simpl; lia|].
  rewrite (Hall b (or_introl eq_refl)). cbn [List.filter].
  apply IH. intros b' Hb'. apply Hall. right. assumption.
Qed.

(** C4.  In the multi-scene path, with distinct scene identifiers, the
    build goes through each (scene, patch) pair of its fetch plan once and
    posts one request per pair, in order and up to the first failure of the
    service; the pairs of a scene are the patches that hold a pixel owned by
    the alpha layer of that scene, and their number is the number of such
    patches. *)
Theorem multi_scene_fetches_owned_patches (s : state) :
  List.NoDup (catalog E) ->
  (forall j g, fills !! j = Some (Some g) -> (g <= 95 # 100)%Q) ->
  let dx := Z.to_nat (Dx proj) in
  let dy := Z.to_nat (Dy proj) in
  let alpha_mask := _make_alpha_mask (catalog E) mask_arr dx dy in
  let run_idx := make_run_idx (catalog E) (fst px) (snd px) alpha_mask in
  let plan := fetch_plan run_idx in
  requests (snd (mosaic E cfg s)) =
    requests s ++
    fst (issue E (requests s)
           (map (fun sp => request_for cfg proj (fst sp) (snd sp)) plan)) /\
  self_run_idx (snd (mosaic E cfg s)) = Some run_idx /\
  List.NoDup plan /\
  forall ii _id, catalog E !! ii = Some _id ->
    (forall p, In (_id, p) plan <->
               owns_in_patch cfg alpha_mask dx dy ii p) /\
    (forall l, List.NoDup l ->
               (forall p, In p l <-> owns_in_patch cfg alpha_mask dx dy ii p) ->
               length (calls_for _id plan) = length l).
Proof.
  intros Hids Hlow dx dy alpha_mask run_idx plan.
  assert (Hrun : run_idx =
                 map (fun e => (snd e, owned_patches (fst px) (snd px)
                                                     alpha_mask (fst e)))
                     (PyList.enumerate (catalog E))).
  { apply make_run_idx_distinct. assumption. }
  assert (Hkeys : map fst run_idx = catalog E).
  { rewrite Hrun, map_map. cbn [fst snd]. apply map_snd_enumerate. }
  assert (Hentry : forall ii _id, catalog E !! ii = Some _id ->
                     In (_id, owned_patches (fst px) (snd px) alpha_mask ii)
                        run_idx).
  { intros ii _id Hii. rewrite Hrun. apply in_map_iff. exists (ii, _id).
    split; [reflexivity|]. apply in_enumerate. assumption. }
  assert (Hspec : forall ii p,
             In p (owned_patches (fst px) (snd px) alpha_mask ii) <->
             owns_in_patch cfg alpha_mask dx dy ii p).
  { intros ii p. rewrite <- list_elem_of_In. destruct px as [px_x px_y].
    apply (owned_patches_spec cfg (Dx proj) (Dy proj) px_x px_y indexed
             alpha_mask (length (catalog E))).
    apply shape3_make_alpha_mask. }
  assert (Hbuild :
            requests (snd (mosaic E cfg s)) =
              requests s ++
              fst (issue E (requests s)
                     (map (fun sp => request_for cfg proj (fst sp) (snd sp))
                          plan)) /\
            self_run_idx (snd (mosaic E cfg s)) = Some run_idx).
  { rewrite (mosaic_multi_scene E cfg proj px mask_arr fills
               resolved indexed masked s (none_over_threshold Hlow)).
    pose proof (fill_then_finish E cfg proj _ _ _
                  (set_run_idx run_idx
                     (set_alpha_mask alpha_mask
                        (prepared E proj px (mask_arr, fills) s)))
                  (runs_fill_mosaic E cfg proj dx dy alpha_mask run_idx))
      as (r & s' & Hrun' & Hreq & _ & _ & Hidx & _).
    subst plan run_idx alpha_mask dx dy. cbv zeta.
    rewrite Hrun'. cbn [snd]. rewrite Hreq, Hidx. split; reflexivity. }
  destruct Hbuild as [Hreq Hidx].
  split; [exact Hreq|split; [exact Hidx|split]].
  - apply fetch_plan_NoDup; [rewrite Hkeys; assumption|].
    intros k vv Hin. rewrite Hrun in Hin. apply in_map_iff in Hin.
    destruct Hin as ([ii c] & [= <- <-] & _).
    apply NoDup_ListNoDup. unfold owned_patches, PyList.list_set.
    apply NoDup_elements.
  - intros ii _id Hii. split.
    + intros p. unfold plan. rewrite in_fetch_plan, <- Hspec. split.
      * intros (vv & Hin & Hp). rewrite Hrun in Hin.
        apply in_map_iff in Hin. destruct Hin as ([jj c] & [= -> <-] & Hjj).
        apply in_enumerate in Hjj. cbn [fst].
        assert (jj = ii) as <-; [|assumption].
        apply NoDup_ListNoDup in Hids.
        exact (NoDup_lookup _ _ _ _ Hids Hjj Hii).
      * intros Hp. eexists. split; [apply (Hentry ii _id Hii)|assumption].
    + intros l Hl Hown. unfold plan.
      rewrite (calls_for_present run_idx _id _
                 ltac:(rewrite Hkeys; assumption) (Hentry ii _id Hii)).
      rewrite length_map. apply Permutation_length.
      apply NoDup_Permutation.
      * unfold owned_patches, PyList.list_set. apply NoDup_elements.
      * apply NoDup_ListNoDup. assumption.
      * intros p. rewrite !list_elem_of_In, Hspec, Hown. reflexivity.
Qed.

End MultiScene.

(** ** The outcome of a build *)

Section Issue.

Variable E : env.

Lemma issue_firstn (plan : list request) :
  forall hist, exists n,
    fst (issue E hist plan) = firstn n plan /\
    (snd (issue E hist plan) = None -> n = length plan).
Proof.
  induction plan as [|q plan IH]; intros hist.
  - exists 0%nat. auto.
  - cbn [issue]. destruct (post E hist q) as [msg|arr].
    + exists 1%nat. split; [reflexivity|discriminate].
    + destruct (IH (hist ++ [q])) as (n & Hn & Hlen).
      destruct (issue E (hist ++ [q]) plan) as [sent failure].
      exists (S n). cbn [fst snd] in *. rewrite Hn.
      split; [reflexivity|]. intros H. cbn [length]. f_equal. auto.
Qed.

Lemma issue_failed_is_last (plan : list request) :
  forall hist h q rest msg,
    fst (issue E hist plan) = h ++ q :: rest ->
    post E (hist ++ h) q = inl msg ->
    rest = [] /\ snd (issue E hist plan) = Some msg.
Proof.
  induction plan as [|q0 plan IH]; intros hist h q rest msg Hsent Hfail.
  - destruct h; discriminate.
  - cbn [issue] in *. destruct (post E hist q0) as [msg0|arr] eqn:Hpost.
    + destruct h as [|q1 h]; cbn [fst app] in Hsent.
      * injection Hsent as <- <-. rewrite app_nil_r, Hpost in Hfail.
        injection Hfail as ->. auto.
      * injection Hsent as _ Hnil. destruct h; discriminate.
    + destruct (issue E (hist ++ [q0]) plan) as [sent failure] eqn:Hissue.
      cbn [fst snd] in *. destruct h as [|q1 h]; cbn [app] in Hsent.
      * injection Hsent as <- _. rewrite app_nil_r, Hpost in Hfail.
        discriminate.
      * injection Hsent as <- Hsent.
        specialize (IH (hist ++ [q0]) h q rest msg).
        rewrite Hissue in IH. apply IH; [exact Hsent|].
        rewrite <- app_assoc. exact Hfail.
Qed.

Lemma issue_all_served (plan : list request) :
  (forall hist q, exists arr, post E hist q = inr arr) ->
  forall hist, issue E hist plan = (plan, None).
Proof.
  intros Hserved. induction plan as [|q plan IH]; intros hist; [reflexivity|].
  cbn [issue]. destruct (Hserved hist q) as [arr ->]. rewrite IH. reflexivity.
Qed.

End Issue.

Section Outcome.

Variable E : env.
Variable cfg : config.

Lemma mosaic_unfold (s : state) :
  mosaic E cfg s =
  match _get_proj_and_affine E cfg with
  | Raise e => (Raise e, s)
  | Return proj =>
      match _make_pixel_indexer cfg (Dx proj) (Dy proj) with
      | Raise e => (Raise e, set_image_ids (catalog E) (set_proj proj s))
      | Return px =>
          match _mask_by_id E (catalog E) (Z.to_nat (Dx proj))
                            (Z.to_nat (Dy proj)) with
          | Raise e =>
              (Raise e, set_px px (set_image_ids (catalog E) (set_proj proj s)))
          | Return masks =>
              (im_arr ← fill_branch E cfg proj px masks;
               finish cfg proj im_arr) (prepared E proj px masks s)
          end
      end
  end.
Proof.
  unfold mosaic.
  rewrite run_bind. unfold lift at 1.
  destruct (_get_proj_and_affine E cfg) as [proj|e]; [|reflexivity].
  rewrite run_bind. unfold modify at 1.
  rewrite run_bind. unfold modify at 1.
  rewrite run_bind. unfold lift at 1.
  destruct (_make_pixel_indexer cfg (Dx proj) (Dy proj)) as [px|e];
    [|reflexivity].
  rewrite run_bind. unfold modify at 1.
  rewrite run_bind. unfold lift at 1.
  destruct (_mask_by_id E (catalog E) _ _) as [[mask_arr fills]|e];
    [|reflexivity].
  rewrite run_bind. unfold modify at 1.
  unfold fill_branch, finish.
  rewrite !run_bind.
  destruct (1 <=? Np.count_true (over_threshold fills))%nat; [reflexivity|].
  rewrite !run_bind. unfold modify at 1 3. reflexivity.
Qed.

Lemma indexer_patch_size (Dx Dy : Z) (px : ndarray2 nat * ndarray2 nat) :
  _make_pixel_indexer cfg Dx Dy = Return px -> PATCH_SIZE cfg <> 0%nat.
Proof.
  intros Hidx HP. revert Hidx. unfold _make_pixel_indexer. rewrite HP.
  destruct (_ || _); discriminate.
Qed.

Lemma indexer_raises (Dx Dy : Z) (e : exn) :
  _make_pixel_indexer cfg Dx Dy = Raise e -> forall msg, e <> RemoteError msg.
Proof.
  unfold _make_pixel_indexer. destruct (_ || _); [intros [= <-]; discriminate|].
  destruct (PATCH_SIZE cfg =? 0)%nat; [intros [= <-]|]; discriminate.
Qed.

Lemma resolver_raises (e : exn) :
  _get_proj_and_affine E cfg = Raise e -> forall msg, e <> RemoteError msg.
Proof.
  unfold _get_proj_and_affine, float_floordiv.
  destruct (centroid E) as [cx cy].
  destruct (utm_bounds E _) as [[[b0 b1] b2] b3].
  destruct (Qeq_bool (SCALE cfg) 0); cbn; [intros [= <-]|]; discriminate.
Qed.

Lemma mask_by_id_raises (ids : list string) (Dx Dy : nat) (e : exn) :
  _mask_by_id E ids Dx Dy = Raise e -> forall msg, e <> RemoteError msg.
Proof.
  unfold _mask_by_id.
  generalize (Np.full3 Dy Dx (length ids) 0, @nil (option Q)).
  generalize (PyList.enumerate ids).
  intros l. induction l as [|[ii _id] l IH]; intros [mask_arr fills];
    [discriminate|].
  cbn [fold_result mask_step].
  destruct (tile_raster E (PyList.suffix 5 _id)).
  - cbn. apply IH.
  - cbn. intros [= <-]. discriminate.
Qed.

(** The choice of lines 150-174 and the fill that it runs. *)
Lemma fill_branch_run (proj : projection) (px : ndarray2 nat * ndarray2 nat)
    (masks : ndarray3 Z * list (option Q)) (s : state) :
  PATCH_SIZE cfg <> 0%nat ->
  exists plan r s',
    fill_branch E cfg proj px masks s = (r, s') /\
    requests s' = requests s ++ fst (issue E (requests s) plan) /\
    rasters s' = rasters s /\ self_im_arr s' = self_im_arr s /\
    match snd (issue E (requests s) plan) with
    | Some msg => r = Raise (RemoteError msg)
    | None =>
        (exists im, r = Return im /\
                    shape3 im = (Z.to_nat (Dy proj), Z.to_nat (Dx proj),
                                 length (BANDS cfg))) \/
        (exists e, r = Raise e /\ forall msg, e <> RemoteError msg)
    end.
Proof.
  intros HP. unfold fill_branch. destruct masks as [mask_arr fills].
  destruct (1 <=? Np.count_true (over_threshold fills))%nat.
  - destruct (Np.min _) as [k|].
    + destruct (catalog E !! k) as [do_id|].
      * destruct (runs_fill_single_id E cfg proj (Z.to_nat (Dx proj))
                    (Z.to_nat (Dy proj)) do_id HP s) as (r & Hrun & Hr).
        eexists; exists r; eexists. split; [exact Hrun|]. cbn.
        repeat (split; [reflexivity|]).
        destruct (snd (issue E (requests s) _)); [assumption|left; assumption].
      * exists [], (Raise IndexError), s. cbn. rewrite app_nil_r.
        repeat (split; [reflexivity|]). right. eexists. split; [reflexivity|].
        discriminate.
    + exists [], (Raise ValueError), s. cbn. rewrite app_nil_r.
      repeat (split; [reflexivity|]). right. eexists. split; [reflexivity|].
      discriminate.
  - rewrite run_bind. unfold modify at 1.
    rewrite run_bind. unfold modify at 1.
    match goal with
    | |- context [_fill_mosaic E cfg proj ?dx ?dy ?a ?r ?s0] =>
        destruct (runs_fill_mosaic E cfg proj dx dy a r s0) as (r' & Hrun & Hr)
    end.
    eexists; exists r'; eexists. split; [exact Hrun|]. cbn.
    repeat (split; [reflexivity|]).
    cbn in Hr.
    destruct (snd (issue E (requests s) _)); [assumption|left; assumption].
Qed.

(** What a build does to the outside and how it ends. *)
Lemma mosaic_outcome (s : state) :
  exists plan,
    requests (snd (mosaic E cfg s)) =
      requests s ++ fst (issue E (requests s) plan) /\
    match snd (issue E (requests s) plan) with
    | Some msg =>
        fst (mosaic E cfg s) = Raise (RemoteError msg) /\
        rasters (snd (mosaic E cfg s)) = rasters s /\
        self_im_arr (snd (mosaic E cfg s)) = self_im_arr s
    | None =>
        (forall msg, fst (mosaic E cfg s) <> Raise (RemoteError msg)) /\
        (fst (mosaic E cfg s) = Return tt ->
         exists proj im_arr ras,
           _get_proj_and_affine E cfg = Return proj /\
           shape3 im_arr = (Z.to_nat (Dy proj), Z.to_nat (Dx proj),
                            length (BANDS cfg)) /\
           self_im_arr (snd (mosaic E cfg s)) = Some im_arr /\
           rasters (snd (mosaic E cfg s)) = rasters s ++ [ras] /\
           ras_width ras = Z.to_nat (Dy proj) /\
           ras_height ras = Z.to_nat (Dx proj) /\
           ras_data ras = transpose_201 im_arr)
    end.
Proof.
  rewrite mosaic_unfold.
  destruct (_get_proj_and_affine E cfg) as [proj|e] eqn:Hres.
  2:{ exists []. cbn. rewrite app_nil_r. split; [reflexivity|].
      split; [|discriminate]. intros msg [= ->].
      exact (resolver_raises _ Hres msg eq_refl). }
  destruct (_make_pixel_indexer cfg (Dx proj) (Dy proj)) as [px|e] eqn:Hidx.
  2:{ exists []. cbn. rewrite app_nil_r. split; [reflexivity|].
      split; [|discriminate]. intros msg [= ->].
      exact (indexer_raises _ _ _ Hidx msg eq_refl). }
  destruct (_mask_by_id E (catalog E) _ _) as [masks|e] eqn:Hmask.
  2:{ exists []. cbn. rewrite app_nil_r. split; [reflexivity|].
      split; [|discriminate]. intros msg [= ->].
      exact (mask_by_id_raises _ _ _ _ Hmask msg eq_refl). }
  destruct (fill_branch_run proj px masks (prepared E proj px masks s)
              (indexer_patch_size _ _ _ Hidx))
    as (plan & r & s' & Hrun & Hreq & Hras & Him & Hr).
  exists plan. rewrite run_bind, Hrun. cbn [requests prepared set_masks set_px
    set_image_ids set_proj rasters self_im_arr] in *.
  destruct (snd (issue E (requests s) plan)) as [msg|].
  - subst r. cbn [fst snd]. auto.
  - destruct Hr as [(im & -> & Hshape)|(e & -> & He)].
    + destruct (finish_run cfg proj im s')
        as (r & ras & -> & Hw & Hh & Hd & _ & Hnot).
      cbn [fst snd add_raster set_im_arr requests rasters self_im_arr].
      split; [assumption|]. split; [exact Hnot|]. intros _.
      exists proj, im, ras. rewrite Hw, Hh, Hshape, Hras. cbn [fst snd].
      auto 10.
    + cbn [fst snd]. split; [assumption|]. split; [|discriminate].
      intros msg [= ->]. exact (He msg eq_refl).
Qed.

End Outcome.


(** C8, as amended.  A body that the service fails is the last one that the
    build posts: the build raises the exception of the transport, posts
    nothing again, and neither sets [self.im_arr] nor hands a raster to the
    sink. *)
Theorem failed_fetch_aborts_build (E : env) (cfg : config) (s : state)
    (hist : list request) (q : request) (rest : list request) (msg : string) :
  requests (snd (mosaic E cfg s)) = requests s ++ hist ++ q :: rest ->
  post E (requests s ++ hist) q = inl msg ->
  rest = [] /\
  fst (mosaic E cfg s) = Raise (RemoteError msg) /\
  rasters (snd (mosaic E cfg s)) = rasters s /\
  self_im_arr (snd (mosaic E cfg s)) = self_im_arr s.
Proof.
  intros Hreq Hfail. destruct (mosaic_outcome E cfg s) as (plan & Hsent & Hout).
  rewrite Hreq in Hsent. apply app_inv_head in Hsent.
  destruct (issue_failed_is_last E plan (requests s) hist q rest msg
              (eq_sym Hsent) Hfail) as [-> Hmsg].
  rewrite Hmsg in Hout. tauto.
Qed.

(** C10.  A build that completes has handed one raster to the sink, whose
    declared width is the first dimension [Dy] of the buffer and whose
    declared height is the second dimension [Dx]; the array written is the
    buffer with the bands first.  On a grid that is not square the declared
    width and height are not those of the grid. *)
Theorem raster_width_and_height_are_swapped (E : env) (cfg : config)
    (s : state) :
  fst (mosaic E cfg s) = Return tt ->
  exists proj im_arr ras,
    _get_proj_and_affine E cfg = Return proj /\
    self_im_arr (snd (mosaic E cfg s)) = Some im_arr /\
    shape3 im_arr = (Z.to_nat (Dy proj), Z.to_nat (Dx proj),
                     length (BANDS cfg)) /\
    rasters (snd (mosaic E cfg s)) = rasters s ++ [ras] /\
    ras_width ras = Z.to_nat (Dy proj) /\
    ras_height ras = Z.to_nat (Dx proj) /\
    shape3 (ras_data ras) = (length (BANDS cfg), Z.to_nat (Dy proj),
                             Z.to_nat (Dx proj)) /\
    (Z.to_nat (Dx proj) <> Z.to_nat (Dy proj) ->
     (ras_width ras, ras_height ras)
     <> (Z.to_nat (Dx proj), Z.to_nat (Dy proj))).
Proof.
  intros Hdone. destruct (mosaic_outcome E cfg s) as (plan & _ & Hout).
  destruct (snd (issue E (requests s) plan)) as [msg|].
  - destruct Hout as [Hraise _]. rewrite Hraise in Hdone. discriminate.
  - destruct Hout as [_ Hret].
    destruct (Hret Hdone) as (proj & im & ras & Hres & Hsh & Him & Hras
                              & Hw & Hh & Hd).
    exists proj, im, ras. rewrite Hw, Hh, Hd.
    repeat (split; [assumption || reflexivity|]). split.
    + unfold transpose_201. rewrite Hsh. reflexivity.
    + intros Hne [= Heq _]. apply Hne. symmetry. exact Heq.
Qed.


(** ** The properties on the sample builds *)

Lemma masks_2x1_binary : binary masks_2x1 1 2 3.
Proof.
  intros y x i Hy Hx Hi.
  assert (y = 0%nat) as -> by lia.
  destruct x as [|[|x]]; [| |lia];
    (destruct i as [|[|[|i]]]; [| | |lia]); vm_compute; auto.
Defined.

Lemma alpha_layers_partition_witness :
  binary masks_2x1 1 2 3 /\
  Np.tolist3 (_make_alpha_mask ["a"; "b"; "c"] masks_2x1 2 1)
    = [[[1; 0; 0]; [0; 1; 0]]] /\
  forall i j, (i < 3)%nat -> (j < 3)%nat ->
    item3 (_make_alpha_mask ["a"; "b"; "c"] masks_2x1 2 1) 0 1 i = 1 ->
    item3 (_make_alpha_mask ["a"; "b"; "c"] masks_2x1 2 1) 0 1 j = 1 -> i = j.
Proof.
  split; [exact masks_2x1_binary|]. split; [reflexivity|].
  refine (proj1 (proj2 (alpha_layers_partition ["a"; "b"; "c"] masks_2x1 2 1
                          masks_2x1_binary 0%nat 1%nat _ _))); lia.
Defined.



Lemma two_scenes_distinct : List.NoDup (catalog E_two_scenes).
Proof.
  repeat constructor; cbn; intuition discriminate.
Defined.

Lemma two_scenes_below_threshold (j : nat) (g : Q) :
  [Some (4 # 8); Some (6 # 8)] !! j = Some (Some g) -> (g <= 95 # 100)%Q.
Proof.
  destruct j as [|[|j]]; cbn; intros [= <-]; vm_compute; discriminate.
Defined.

Lemma multi_scene_fetches_owned_patches_witness :
  exists run_idx,
    self_run_idx (snd (mosaic E_two_scenes cfg_rgb initial)) = Some run_idx /\
    fetch_plan run_idx = [("S2A_31UAA", (0, 0)); ("S2B_31UBB", (1, 0))]%nat /\
    List.NoDup (fetch_plan run_idx) /\
    map (fun r => (req_name r, req_translateX r, req_translateY r))
        (requests (snd (mosaic E_two_scenes cfg_rgb initial)))
      = [("projects/earthengine-public/assets/S2A_31UAA",
          500000%Q, 5000025%Q);
         ("projects/earthengine-public/assets/S2B_31UBB",
          500020%Q, 5000025%Q)].
Proof.
  destruct (multi_scene_fetches_owned_patches
              E_two_scenes cfg_rgb proj_4x2 _ _ _
              eq_refl eq_refl eq_refl initial
              two_scenes_distinct two_scenes_below_threshold)
    as (Hreq & Hidx & Hnd & _).
  eexists. split; [exact Hidx|]. split; [vm_compute; reflexivity|].
  split; [exact Hnd|]. rewrite Hreq. vm_compute. reflexivity.
Defined.

(** C5: on the 4 by 2 grid the y-scale of the matrix is 1/10, not negative,
    and the matrix sends the pixel origin to (-50000, -500000). *)
Lemma resolver_transform_is_not_north_up :
  exists proj,
    _get_proj_and_affine E_two_scenes cfg_rgb = Return proj /\
    ~ north_up_pixel_to_utm (SCALE cfg_rgb) (aoi_bounds proj) (GT proj).
Proof.
  exists proj_4x2. split; [reflexivity|].
  intros (_ & He & _). vm_compute in He. discriminate.
Defined.

Lemma resolver_transform_maps_corner_to_origin_witness :
  _get_proj_and_affine E_two_scenes cfg_rgb = Return proj_4x2 /\
  (fst (affine_transform (GT proj_4x2) (500000, 5000000)) == 0)%Q /\
  (snd (affine_transform (GT proj_4x2) (500000, 5000000)) == 0)%Q.
Proof.
  split; [reflexivity|].
  exact (proj2 (resolver_transform_maps_corner_to_origin
                  E_two_scenes cfg_rgb proj_4x2 eq_refl)).
Defined.



(** C8: the service fails the first post and would serve the next one; the
    build posts once and raises. *)
Lemma failed_fetch_is_not_retried :
  ~ retries_failed_fetch E_flaky cfg_rgb initial.
Proof.
  intros H.
  exact (H [] (request_for cfg_rgb proj_4x2 "S2A_31UAA" (0, 0)%nat) []
           "timeout" eq_refl eq_refl).
Defined.

Lemma failed_fetch_aborts_build_witness :
  fst (mosaic E_flaky cfg_rgb initial) = Raise (RemoteError "timeout") /\
  rasters (snd (mosaic E_flaky cfg_rgb initial)) = [] /\
  self_im_arr (snd (mosaic E_flaky cfg_rgb initial)) = None.
Proof.
  exact (proj2 (failed_fetch_aborts_build E_flaky cfg_rgb initial []
                  (request_for cfg_rgb proj_4x2 "S2A_31UAA" (0, 0)%nat) []
                  "timeout" eq_refl eq_refl)).
Defined.



Lemma raster_width_and_height_are_swapped_witness :
  fst (mosaic E_two_scenes cfg_rgb initial) = Return tt /\
  map (fun r => (ras_width r, ras_height r))
      (rasters (snd (mosaic E_two_scenes cfg_rgb initial))) = [(2, 4)]%nat /\
  exists proj im_arr ras,
    _get_proj_and_affine E_two_scenes cfg_rgb = Return proj /\
    self_im_arr (snd (mosaic E_two_scenes cfg_rgb initial)) = Some im_arr /\
    shape3 im_arr = (Z.to_nat (Dy proj), Z.to_nat (Dx proj),
                     length (BANDS cfg_rgb)) /\
    rasters (snd (mosaic E_two_scenes cfg_rgb initial))
      = rasters initial ++ [ras] /\
    ras_width ras = Z.to_nat (Dy proj) /\
    ras_height ras = Z.to_nat (Dx proj) /\
    shape3 (ras_data ras) = (length (BANDS cfg_rgb), Z.to_nat (Dy proj),
                             Z.to_nat (Dx proj)) /\
    (Z.to_nat (Dx proj) <> Z.to_nat (Dy proj) ->
     (ras_width ras, ras_height ras)
     <> (Z.to_nat (Dx proj), Z.to_nat (Dy proj))).
Proof.
  split; [reflexivity|]. split; [reflexivity|].
  exact (raster_width_and_height_are_swapped E_two_scenes cfg_rgb initial
           eq_refl).
Defined.

(** * Further properties *)

(** ** Further properties: [get_utm_zone] and the resolver *)


(** [get_utm_zone] at the date line: the formula gives a zone 61. *)
Example get_utm_zone_date_line : get_utm_zone 0 180 = "61".
Proof. reflexivity. Qed.







(** ** Further properties: the pixel indexer and the availability masks *)

Lemma shape2_set_cols_loop (P : nat) (l : list nat) :
  forall px : ndarray2 nat,
    shape2 (fold_left
              (fun px idx => Np.set_cols px (idx * P) ((idx + 1) * P) idx)
              l px) = shape2 px.
Proof.
  induction l as [|i l IH]; intros px; [reflexivity|].
  cbn [fold_left]. rewrite IH. reflexivity.
Qed.

Lemma shape2_set_rows_loop (P : nat) (l : list nat) :
  forall px : ndarray2 nat,
    shape2 (fold_left
              (fun px idy => Np.set_rows px (idy * P) ((idy + 1) * P) idy)
              l px) = shape2 px.
Proof.
  induction l as [|i l IH]; intros px; [reflexivity|].
  cbn [fold_left]. rewrite IH. reflexivity.
Qed.

(** X4.  The two arrays that [_make_pixel_indexer] returns have the shape of
    the grid, and at every pixel of the grid they hold the coordinates of
    the patch that the pixel lies in. *)
Theorem pixel_indexer_assigns_patches (cfg : config) (Dx Dy : Z)
    (px_x px_y : ndarray2 nat) :
  _make_pixel_indexer cfg Dx Dy = Return (px_x, px_y) ->
  shape2 px_x = (Z.to_nat Dy, Z.to_nat Dx) /\
  shape2 px_y = (Z.to_nat Dy, Z.to_nat Dx) /\
  forall y x, (y < Z.to_nat Dy)%nat -> (x < Z.to_nat Dx)%nat ->
    patch_contains cfg (item2 px_x y x, item2 px_y y x) y x.
Proof.
  intros Hidx. split; [|split].
  - revert Hidx. unfold _make_pixel_indexer.
    destruct (_ || _); [discriminate|].
    destruct (PATCH_SIZE cfg =? 0)%nat; [discriminate|].
    intros [= <- _]. apply shape2_set_cols_loop.
  - revert Hidx. unfold _make_pixel_indexer.
    destruct (_ || _); [discriminate|].
    destruct (PATCH_SIZE cfg =? 0)%nat; [discriminate|].
    intros [= _ <-]. apply shape2_set_rows_loop.
  - intros y x Hy Hx.
    destruct (pixel_indexer_items cfg Dx Dy px_x px_y Hidx y x Hy Hx)
      as [-> ->].
    pose proof (indexer_patch_size cfg Dx Dy _ Hidx) as HP.
    unfold patch_contains. cbn [fst snd].
    split; apply (in_patch_div (PATCH_SIZE cfg) HP); reflexivity.
Qed.

Lemma pixel_indexer_assigns_patches_witness :
  exists px_x px_y,
    _make_pixel_indexer cfg_rgb 4 2 = Return (px_x, px_y) /\
    Np.tolist2 px_x = [[0; 0; 1; 1]; [0; 0; 1; 1]]%nat /\
    Np.tolist2 px_y = [[0; 0; 0; 0]; [0; 0; 0; 0]]%nat /\
    patch_contains cfg_rgb (item2 px_x 1 3, item2 px_y 1 3)%nat 1 3.
Proof.
  do 2 eexists. split; [reflexivity|]. split; [reflexivity|].
  split; [reflexivity|].
  refine (proj2 (proj2 (pixel_indexer_assigns_patches cfg_rgb 4 2 _ _
                          eq_refl)) 1%nat 3%nat _ _); cbn; lia.
Defined.

Section Masks.

Variable E : env.
Variables Dx Dy : nat.

(** The fill fraction that [mask_step] appends for a raster. *)
Lemma sum_fresh_layer (m : ndarray3 Z) (N ii : nat) (im : nat -> nat -> Z) :
  shape3 m = (Dy, Dx, N) ->
  Np.sum (Np.layer (Np.set_layer m ii (Ndarray2 (Dy, Dx) im)) ii)
  = Np.sum (Ndarray2 (Dy, Dx) im).
Proof.
  intros Hm. unfold Np.layer, Np.set_layer. cbn [shape3]. rewrite Hm.
  unfold Np.sum. cbn [shape2 item2 item3 fst snd]. f_equal.
  apply flat_map_ext. intros y. apply map_ext. intros x.
  rewrite Nat.eqb_refl. reflexivity.
Qed.

Lemma mask_loop (N : nat) (l : list string) :
  forall (a : nat) (m : ndarray3 Z) (fs : list (option Q))
         (m' : ndarray3 Z) (fs' : list (option Q)),
    shape3 m = (Dy, Dx, N) ->
    fold_result (combine (seq a (length l)) l) (mask_step E Dx Dy) (m, fs)
    = Return (m', fs') ->
    shape3 m' = (Dy, Dx, N) /\
    (forall y x k, (k < a)%nat -> item3 m' y x k = item3 m y x k) /\
    exists fs2,
      fs' = fs ++ fs2 /\ length fs2 = length l /\
      forall j _id, l !! j = Some _id ->
        exists im,
          tile_raster E (PyList.suffix 5 _id) = Some im /\
          (forall y x, item3 m' y x (a + j) = im y x) /\
          fs2 !! j = Some (fill_fraction (Np.sum (Ndarray2 (Dy, Dx) im))
                                         Dy Dx).
Proof.
  induction l as [|_id l IH]; intros a m fs m' fs' Hm Hrun.
  - cbn in Hrun. injection Hrun as <- <-. split; [assumption|].
    split; [reflexivity|]. exists []. rewrite app_nil_r.
    split; [reflexivity|]. split; [reflexivity|].
    intros j i Hj. rewrite lookup_nil in Hj. discriminate.
  - cbn [length seq combine fold_result mask_step] in Hrun.
    destruct (tile_raster E (PyList.suffix 5 _id)) as [im|] eqn:Him;
      [|discriminate].
    cbn in Hrun. rewrite (sum_fresh_layer m N a im Hm) in Hrun.
    apply IH in Hrun; [|exact Hm].
    destruct Hrun as (Hm' & Hkeep & fs2 & -> & Hlen & Hl).
    split; [assumption|]. split.
    + intros y x k Hk. rewrite Hkeep by lia. cbn.
      destruct (Nat.eqb_spec k a); [lia|reflexivity].
    + eexists (_ :: fs2). rewrite <- app_assoc. split; [reflexivity|].
      split; [cbn; lia|]. intros [|j] i Hj.
      * cbn in Hj. injection Hj as <-. exists im. split; [assumption|].
        split; [|reflexivity]. intros y x. rewrite Nat.add_0_r.
        rewrite Hkeep by lia. cbn. rewrite Nat.eqb_refl. reflexivity.
      * cbn in Hj. destruct (Hl j i Hj) as (im' & Him' & Hitem & Hfill).
        exists im'. split; [assumption|]. split; [|exact Hfill].
        intros y x. rewrite <- Hitem. f_equal. lia.
Qed.

End Masks.

(** X5.  When [_mask_by_id] returns, the stack has one layer and the list
    one fill fraction per scene, in the order of the scenes; layer [ii] is
    the raster of the tile that the last five characters of scene [ii]
    name, and fill [ii] is the sum of that raster over the two dimensions
    of the grid. *)
Theorem mask_by_id_layers (E : env) (image_ids : list string) (Dx Dy : nat)
    (mask_arr : ndarray3 Z) (fills : list (option Q)) :
  _mask_by_id E image_ids Dx Dy = Return (mask_arr, fills) ->
  shape3 mask_arr = (Dy, Dx, length image_ids) /\
  length fills = length image_ids /\
  forall ii _id, image_ids !! ii = Some _id ->
    exists im,
      tile_raster E (PyList.suffix 5 _id) = Some im /\
      (forall y x, item3 mask_arr y x ii = im y x) /\
      fills !! ii = Some (fill_fraction (Np.sum (Ndarray2 (Dy, Dx) im))
                                        Dy Dx).
Proof.
  unfold _mask_by_id, PyList.enumerate. intros Hrun.
  apply (mask_loop E Dx Dy (length image_ids)) in Hrun; [|reflexivity].
  destruct Hrun as (Hshape & _ & fs2 & -> & Hlen & Hl).
  split; [assumption|]. split; [cbn; assumption|]. exact Hl.
Qed.

Lemma mask_by_id_layers_witness :
  exists mask_arr fills,
    _mask_by_id E_two_scenes (catalog E_two_scenes) 4 2
    = Return (mask_arr, fills) /\
    Np.tolist3 mask_arr
    = [[[1; 0]; [1; 1]; [0; 1]; [0; 1]]; [[1; 0]; [1; 1]; [0; 1]; [0; 1]]] /\
    fills = [Some (4 # 8); Some (6 # 8)] /\
    length fills = 2%nat.
Proof.
  do 2 eexists. split; [reflexivity|]. split; [reflexivity|].
  split; [reflexivity|].
  exact (proj1 (proj2 (mask_by_id_layers E_two_scenes
                         (catalog E_two_scenes) 4 2 _ _ eq_refl))).
Defined.

Section MissingTile.

Variable E : env.
Variables Dx Dy : nat.

Lemma mask_loop_served (l : list string) :
  (forall _id, In _id l -> tile_raster E (PyList.suffix 5 _id) <> None) ->
  forall a st, exists r,
    fold_result (combine (seq a (length l)) l) (mask_step E Dx Dy) st
    = Return r.
Proof.
  induction l as [|_id l IH]; intros Hall a [m fs]; [eexists; reflexivity|].
  cbn [length seq combine fold_result mask_step].
  destruct (tile_raster E (PyList.suffix 5 _id)) as [im|] eqn:Him.
  - cbn. apply IH. intros i Hi. apply Hall. right. assumption.
  - exfalso. apply (Hall _id); [left; reflexivity|assumption].
Qed.

Lemma mask_loop_missing (pre : list string) (_id : string)
    (post : list string) :
  (forall i, In i pre -> tile_raster E (PyList.suffix 5 i) <> None) ->
  tile_raster E (PyList.suffix 5 _id) = None ->
  forall a st,
    fold_result (combine (seq a (length (pre ++ _id :: post)))
                         (pre ++ _id :: post))
                (mask_step E Dx Dy) st
    = Raise (KeyError (PyList.suffix 5 _id)).
Proof.
  intros Hpre Hid. induction pre as [|i pre IH]; intros a [m fs].
  - cbn [app length seq combine fold_result mask_step]. rewrite Hid.
    reflexivity.
  - cbn [app length seq combine fold_result mask_step].
    destruct (tile_raster E (PyList.suffix 5 i)) as [im|] eqn:Him.
    + cbn. apply IH. intros j Hj. apply Hpre. right. assumption.
    + exfalso. apply (Hpre i); [left; reflexivity|assumption].
Qed.

End MissingTile.

(** X6.  [_mask_by_id] returns when every scene names a tile of the store;
    otherwise it raises a [KeyError] whose key is the last five characters
    of the first scene that does not. *)
Theorem mask_by_id_missing_tile (E : env) (Dx Dy : nat) :
  (forall image_ids,
     (forall _id, In _id image_ids ->
                  tile_raster E (PyList.suffix 5 _id) <> None) ->
     exists r, _mask_by_id E image_ids Dx Dy = Return r) /\
  (forall pre _id post,
     (forall i, In i pre -> tile_raster E (PyList.suffix 5 i) <> None) ->
     tile_raster E (PyList.suffix 5 _id) = None ->
     _mask_by_id E (pre ++ _id :: post) Dx Dy
     = Raise (KeyError (PyList.suffix 5 _id))).
Proof.
  split.
  - intros ids Hall. apply mask_loop_served. assumption.
  - intros pre _id post Hpre Hid. apply mask_loop_missing; assumption.
Qed.

Lemma mask_by_id_missing_tile_witness :
  _mask_by_id E_two_scenes (["S2A_31UAA"] ++ "S2A_99ZZZ" :: ["S2B_31UBB"]) 4 2
  = Raise (KeyError "99ZZZ").
Proof.
  apply (proj2 (mask_by_id_missing_tile E_two_scenes 4 2)
           ["S2A_31UAA"] "S2A_99ZZZ" ["S2B_31UBB"]).
  - intros i [<-|[]]. vm_compute. discriminate.
  - reflexivity.
Defined.

Section FillFraction.

Lemma sum_list_between (l : list Z) :
  (forall z, In z l -> z = 0 \/ z = 1) ->
  0 <= fold_left Z.add l 0 <= Z.of_nat (length l).
Proof.
  induction l as [|z l IH]; intros Hl; [cbn; lia|].
  cbn [fold_left length]. rewrite fold_add_acc.
  specialize (IH (fun w Hw => Hl w (or_intror Hw))).
  destruct (Hl z (or_introl eq_refl)) as [-> | ->]; lia.
Qed.

Lemma length_grid (A : Type) (f : nat -> nat -> A) (d0 d1 : nat) :
  length (flat_map (fun y => map (f y) (Np.range d1)) (Np.range d0))
  = (d0 * d1)%nat.
Proof.
  unfold Np.range. generalize 0%nat at 2.
  induction d0 as [|d0 IH]; intros a; [reflexivity|].
  cbn [seq flat_map]. rewrite length_app, length_map, length_seq, IH.
  reflexivity.
Qed.

Lemma sum_binary_raster (im : nat -> nat -> Z) (Dx Dy : nat) :
  (forall y x, (y < Dy)%nat -> (x < Dx)%nat -> im y x = 0 \/ im y x = 1) ->
  0 <= Np.sum (Ndarray2 (Dy, Dx) im) <= Z.of_nat (Dy * Dx).
Proof.
  intros Hbin. unfold Np.sum. cbn [shape2 item2 fst snd].
  rewrite <- (length_grid Z im Dy Dx). apply sum_list_between.
  intros z Hz. apply in_flat_map in Hz. destruct Hz as (y & Hy & Hz).
  apply in_map_iff in Hz. destruct Hz as (x & <- & Hx).
  apply in_seq in Hy, Hx. apply Hbin; lia.
Qed.

Lemma fill_fraction_between (s : Z) (Dx Dy : nat) :
  (0 < Dy)%nat -> (0 < Dx)%nat -> 0 <= s <= Z.of_nat (Dy * Dx) ->
  exists q, fill_fraction s Dy Dx = Some q /\ (0 <= q)%Q /\ (q <= 1)%Q.
Proof.
  intros Hy Hx Hs. unfold fill_fraction.
  destruct (Nat.eqb_spec Dy 0); [lia|]. destruct (Nat.eqb_spec Dx 0); [lia|].
  cbn [orb]. eexists. split; [reflexivity|].
  assert (Hdy : (0 < inject_Z (Z.of_nat Dy))%Q)
    by (change 0%Q with (inject_Z 0); rewrite <- Zlt_Qlt; lia).
  assert (Hdx : (0 < inject_Z (Z.of_nat Dx))%Q)
    by (change 0%Q with (inject_Z 0); rewrite <- Zlt_Qlt; lia).
  assert (Hs0 : (0 <= inject_Z s)%Q)
    by (change 0%Q with (inject_Z 0); rewrite <- Zle_Qle; lia).
  assert (Hs1 : (inject_Z s
                 <= inject_Z (Z.of_nat Dy) * inject_Z (Z.of_nat Dx))%Q).
  { rewrite <- inject_Z_mult, <- Zle_Qle. lia. }
  split.
  - apply Qle_shift_div_l; [assumption|].
    apply Qle_shift_div_l; [assumption|]. lra.
  - apply Qle_shift_div_r; [assumption|].
    apply Qle_shift_div_r; [assumption|]. lra.
Qed.

End FillFraction.

(** X7.  When the rasters of the tiles are 0 or 1 over a grid that is not
    empty, every fill fraction that [_mask_by_id] returns is a number
    between 0 and 1; over an empty grid every fill fraction is the [nan] of
    [0.0 / 0]. *)
Theorem fill_fractions_between_0_and_1 (E : env) (image_ids : list string)
    (Dx Dy : nat) (mask_arr : ndarray3 Z) (fills : list (option Q)) :
  _mask_by_id E image_ids Dx Dy = Return (mask_arr, fills) ->
  ((0 < Dy)%nat -> (0 < Dx)%nat ->
   (forall _id im y x,
      In _id image_ids -> tile_raster E (PyList.suffix 5 _id) = Some im ->
      (y < Dy)%nat -> (x < Dx)%nat -> im y x = 0 \/ im y x = 1) ->
   forall f, In f fills -> exists q, f = Some q /\ (0 <= q)%Q /\ (q <= 1)%Q) /\
  (Dy = 0%nat \/ Dx = 0%nat -> forall f, In f fills -> f = None).
Proof.
  unfold _mask_by_id, PyList.enumerate. intros Hrun.
  apply (mask_loop E Dx Dy (length image_ids)) in Hrun; [|reflexivity].
  destruct Hrun as (_ & _ & fs2 & Hfs & Hlen & Hl).
  cbn [app] in Hfs. subst fs2.
  assert (Hfill : forall f, In f fills ->
            exists _id im,
              In _id image_ids /\
              tile_raster E (PyList.suffix 5 _id) = Some im /\
              f = fill_fraction (Np.sum (Ndarray2 (Dy, Dx) im)) Dy Dx).
  { intros f Hf. apply list_elem_of_In, list_elem_of_lookup in Hf.
    destruct Hf as [ii Hii].
    destruct (image_ids !! ii) as [_id|] eqn:Hid.
    - destruct (Hl ii _id Hid) as (im & Him & _ & Hf).
      rewrite Hii in Hf. injection Hf as ->. exists _id, im.
      split; [|auto]. apply list_elem_of_In, list_elem_of_lookup. eauto.
    - apply lookup_ge_None in Hid. apply lookup_lt_Some in Hii. lia. }
  split.
  - intros Hy Hx Hbin f Hf.
    destruct (Hfill f Hf) as (_id & im & Hin & Him & ->).
    apply fill_fraction_between; [assumption|assumption|].
    apply sum_binary_raster. intros y x Hy' Hx'.
    exact (Hbin _id im y x Hin Him Hy' Hx').
  - intros Hzero f Hf. destruct (Hfill f Hf) as (_id & im & _ & _ & ->).
    unfold fill_fraction. destruct Hzero as [-> | ->]; [reflexivity|].
    destruct (Dy =? 0)%nat; reflexivity.
Qed.

Lemma two_scenes_rasters_binary (_id : string) (im : nat -> nat -> Z)
    (y x : nat) :
  In _id (catalog E_two_scenes) ->
  tile_raster E_two_scenes (PyList.suffix 5 _id) = Some im ->
  (y < 2)%nat -> (x < 4)%nat -> im y x = 0 \/ im y x = 1.
Proof.
  intros [<-|[<-|[]]] [= <-] _ _; unfold columns;
    destruct (_ && _); auto.
Defined.

Lemma fill_fractions_between_0_and_1_witness :
  exists mask_arr,
    _mask_by_id E_two_scenes (catalog E_two_scenes) 4 2
    = Return (mask_arr, [Some (4 # 8); Some (6 # 8)]) /\
    forall f, In f [Some (4 # 8); Some (6 # 8)] ->
              exists q, f = Some q /\ (0 <= q)%Q /\ (q <= 1)%Q.
Proof.
  eexists. split; [reflexivity|].
  apply (proj1 (fill_fractions_between_0_and_1 E_two_scenes
                  (catalog E_two_scenes) 4 2 _ _ eq_refl));
    [lia|lia|exact two_scenes_rasters_binary].
Defined.

(** ** Further properties: the alpha assignment and the run index *)

(** X8.  For binary availability masks a pixel of the grid is 1 in alpha
    layer [i] exactly when mask [i] covers it and no mask of a lower index
    does: the first scene of the list that covers a pixel owns it. *)
Theorem alpha_owner_is_first_covering_scene (image_ids : list string)
    (mask_arr : ndarray3 Z) (Dx Dy : nat) :
  binary mask_arr Dy Dx (length image_ids) ->
  forall y x i, (y < Dy)%nat -> (x < Dx)%nat -> (i < length image_ids)%nat ->
    item3 (_make_alpha_mask image_ids mask_arr Dx Dy) y x i = 1 <->
    item3 mask_arr y x i = 1 /\
    forall j, (j < i)%nat -> item3 mask_arr y x j = 0.
Proof.
  intros Hbin y x i Hy Hx Hi. rewrite alpha_item by assumption.
  exact (layer_value_one mask_arr Dx Dy _ Hbin y x Hy Hx i Hi).
Qed.

Lemma alpha_owner_is_first_covering_scene_witness :
  binary masks_2x1 1 2 3 /\
  (item3 (_make_alpha_mask ["a"; "b"; "c"] masks_2x1 2 1) 0 1 1 = 1 <->
   item3 masks_2x1 0 1 1 = 1 /\
   forall j, (j < 1)%nat -> item3 masks_2x1 0 1 j = 0).
Proof.
  split; [exact masks_2x1_binary|].
  apply (alpha_owner_is_first_covering_scene ["a"; "b"; "c"] masks_2x1 2 1
           masks_2x1_binary); cbn; lia.
Defined.

(** Masks of one pixel that are not binary: layer 0 keeps 255. *)
Example alpha_mask_of_grey_levels :
  Np.tolist3 (_make_alpha_mask ["a"; "b"; "c"]
                (Np.array3 0 1 1 3 [[[255; 7; 300]]]) 1 1)
  = [[[255; 0; 1]]].
Proof. reflexivity. Qed.

(** X9.  Whatever the items of the availability masks, the alpha stack has
    the shape of the grid with one layer per scene, its layer 0 is mask 0
    as it is, and the items of every later layer are 0 or 1: a later layer
    is 1 where its mask exceeds the sum of the earlier masks. *)
Theorem alpha_mask_layers_are_clipped (image_ids : list string)
    (mask_arr : ndarray3 Z) (Dx Dy : nat) :
  let alpha_mask := _make_alpha_mask image_ids mask_arr Dx Dy in
  shape3 alpha_mask = (Dy, Dx, length image_ids) /\
  forall y x i, (i < length image_ids)%nat ->
    (i = 0%nat -> item3 alpha_mask y x i = item3 mask_arr y x 0) /\
    (i <> 0%nat ->
     (item3 alpha_mask y x i = 1 <->
      prefix_sum (item3 mask_arr y x) i < item3 mask_arr y x i) /\
     (item3 alpha_mask y x i = 0 <->
      item3 mask_arr y x i <= prefix_sum (item3 mask_arr y x) i)).
Proof.
  intros alpha_mask. subst alpha_mask.
  split; [apply shape3_make_alpha_mask|].
  intros y x i Hi. rewrite alpha_item by assumption. unfold layer_value.
  destruct (Nat.eqb_spec i 0) as [->|Hne].
  - split; [reflexivity|congruence].
  - split; [congruence|]. intros _. lia.
Qed.

Section Dict.

Context {V : Type}.

Lemma dict_get_set_eq (d : list (string * V)) (k : string) (v : V) :
  dict_get (PyList.dict_set d k v) k = Some v.
Proof.
  induction d as [|[k' v'] d IH]; cbn.
  - rewrite String.eqb_refl. reflexivity.
  - destruct (String.eqb_spec k' k) as [->|Hne]; cbn.
    + rewrite String.eqb_refl. reflexivity.
    + destruct (String.eqb_spec k' k); [contradiction|assumption].
Qed.

Lemma dict_get_set_ne (d : list (string * V)) (k k' : string) (v : V) :
  k <> k' -> dict_get (PyList.dict_set d k v) k' = dict_get d k'.
Proof.
  intros Hne. induction d as [|[k0 v0] d IH]; cbn.
  - destruct (String.eqb_spec k k'); [contradiction|reflexivity].
  - destruct (String.eqb_spec k0 k) as [->|Hk]; cbn.
    + destruct (String.eqb_spec k k'); [contradiction|reflexivity].
    + rewrite IH. reflexivity.
Qed.

Lemma dict_get_In (d : list (string * V)) (k : string) (v : V) :
  dict_get d k = Some v -> In (k, v) d.
Proof.
  induction d as [|[k' v'] d IH]; cbn; [discriminate|].
  destruct (String.eqb_spec k' k) as [->|_].
  - intros [= ->]. left. reflexivity.
  - intros H. right. apply IH. assumption.
Qed.

Lemma dict_set_keys (d : list (string * V)) (k : string) (v : V) :
  map fst (PyList.dict_set d k v) =
  if existsb (String.eqb k) (map fst d) then map fst d
  else map fst d ++ [k].
Proof.
  induction d as [|[k' v'] d IH]; [reflexivity|].
  cbn [PyList.dict_set map fst existsb].
  rewrite (String.eqb_sym k k').
  destruct (String.eqb_spec k' k) as [->|Hne]; [reflexivity|].
  cbn [orb map fst]. rewrite IH.
  destruct (existsb (String.eqb k) (map fst d)); reflexivity.
Qed.

Lemma dict_set_keys_NoDup (d : list (string * V)) (k : string) (v : V) :
  List.NoDup (map fst d) -> List.NoDup (map fst (PyList.dict_set d k v)).
Proof.
  intros Hnd. rewrite dict_set_keys.
  destruct (existsb (String.eqb k) (map fst d)) eqn:Hex; [assumption|].
  apply NoDup_ListNoDup, NoDup_app. repeat split.
  - apply NoDup_ListNoDup. assumption.
  - intros x Hx Hk. apply list_elem_of_In in Hx, Hk.
    destruct Hk as [<-|[]].
    assert (Htrue : existsb (String.eqb k) (map fst d) = true).
    { apply existsb_exists. exists k. split; [assumption|].
      apply String.eqb_refl. }
    congruence.
  - apply NoDup_ListNoDup. repeat constructor. intros [].
Qed.

Lemma dict_set_keys_In (d : list (string * V)) (k k' : string) (v : V) :
  In k' (map fst (PyList.dict_set d k v)) <-> k' = k \/ In k' (map fst d).
Proof.
  rewrite dict_set_keys.
  destruct (existsb (String.eqb k) (map fst d)) eqn:Hex.
  - split; [auto|]. intros [->|H]; [|assumption].
    apply existsb_exists in Hex. destruct Hex as (x & Hx & Heq).
    apply String.eqb_eq in Heq. subst x. assumption.
  - rewrite in_app_iff. cbn. intuition congruence.
Qed.

Lemma dict_set_values (d : list (string * V)) (k : string) (v : V)
    (P : V -> Prop) :
  P v -> (forall k' v', In (k', v') d -> P v') ->
  forall k' v', In (k', v') (PyList.dict_set d k v) -> P v'.
Proof.
  intros Hv. induction d as [|[k0 v0] d IH]; intros Hd k' v'.
  - cbn. intros [[= <- <-]|[]]. assumption.
  - cbn [PyList.dict_set]. destruct (String.eqb_spec k0 k) as [->|Hne].
    + intros [[= <- <-]|Hin]; [assumption|].
      apply (Hd k' v'). right. assumption.
    + intros [[= <- <-]|Hin].
      * apply (Hd k0 v0). left. reflexivity.
      * apply (IH (fun a b H => Hd a b (or_intror H)) k' v' Hin).
Qed.

End Dict.

Section RunIndexAnyIds.

Variable F : nat -> list patch.
Hypothesis F_NoDup : forall ii, List.NoDup (F ii).

Lemma run_idx_loop_any (l : list string) :
  forall (a : nat) (d : list (string * list patch)),
    List.NoDup (map fst d) ->
    (forall k v, In (k, v) d -> List.NoDup v) ->
    let d' :=
      fold_left (fun run_idx '(ii, _id) => PyList.dict_set run_idx _id (F ii))
                (combine (seq a (length l)) l) d in
    List.NoDup (map fst d') /\
    (forall k v, In (k, v) d' -> List.NoDup v) /\
    (forall k, In k (map fst d') <-> In k l \/ In k (map fst d)) /\
    (forall k, ~ In k l -> dict_get d' k = dict_get d k) /\
    (forall ii _id, l !! ii = Some _id ->
       (forall jj, (ii < jj)%nat -> l !! jj <> Some _id) ->
       dict_get d' _id = Some (F (a + ii))).
Proof.
  induction l as [|x l IH]; intros a d Hkeys Hvals.
  - cbn. repeat split; try assumption; try tauto.
    intros ii i Hii. rewrite lookup_nil in Hii. discriminate.
  - cbn [length seq combine fold_left]. cbn zeta.
    specialize (IH (S a) (PyList.dict_set d x (F a))).
    destruct IH as (IH1 & IH2 & IH3 & IH4 & IH5).
    { apply dict_set_keys_NoDup. assumption. }
    { apply dict_set_values; [apply F_NoDup|assumption]. }
    split; [assumption|]. split; [assumption|]. split; [|split].
    + intros k. rewrite IH3. rewrite dict_set_keys_In.
      cbn [In]. intuition congruence.
    + intros k Hk. rewrite IH4 by (intros H; apply Hk; right; assumption).
      apply dict_get_set_ne. intros ->. apply Hk. left.
      reflexivity.
    + intros [|ii] i Hii Hlast.
      * cbn in Hii. injection Hii as <-. rewrite IH4.
        -- rewrite Nat.add_0_r. apply dict_get_set_eq.
        -- intros Hin. apply list_elem_of_In, list_elem_of_lookup in Hin.
           destruct Hin as [jj Hjj]. apply (Hlast (S jj)); [lia|exact Hjj].
      * cbn in Hii. replace (a + S ii)%nat with (S a + ii)%nat by lia.
        apply IH5; [assumption|].
        intros jj Hjj. apply (Hlast (S jj)). lia.
Qed.

End RunIndexAnyIds.

(** X10.  Whatever the scene identifiers, [run_idx] is a dict: its keys are
    the identifiers of the list without repetition, so that no (scene,
    patch) pair occurs twice in the fetch plan; where an identifier is
    repeated, its entry holds the patches of its last occurrence. *)
Theorem run_idx_is_keyed_by_scene (image_ids : list string)
    (px_x px_y : ndarray2 nat) (alpha_mask : ndarray3 Z) :
  let run_idx := make_run_idx image_ids px_x px_y alpha_mask in
  List.NoDup (map fst run_idx) /\
  (forall _id, In _id (map fst run_idx) <-> In _id image_ids) /\
  List.NoDup (fetch_plan run_idx) /\
  forall ii _id,
    image_ids !! ii = Some _id ->
    (forall jj, (ii < jj)%nat -> image_ids !! jj <> Some _id) ->
    In (_id, owned_patches px_x px_y alpha_mask ii) run_idx.
Proof.
  intros run_idx.
  destruct (run_idx_loop_any (owned_patches px_x px_y alpha_mask)
              ltac:(intros ii; apply NoDup_ListNoDup;
                    apply owned_patches_NoDup)
              image_ids 0%nat [] ltac:(constructor)
              ltac:(intros k v [])) as (H1 & H2 & H3 & _ & H5).
  fold (PyList.enumerate image_ids) in *.
  change (fold_left _ (PyList.enumerate image_ids) [])
    with run_idx in H1, H2, H3, H5.
  split; [assumption|]. split; [|split].
  - intros i. rewrite H3. cbn. tauto.
  - apply fetch_plan_NoDup; assumption.
  - intros ii i Hii Hlast. apply dict_get_In. exact (H5 ii i Hii Hlast).
Qed.

(** A repeated identifier: the second occurrence replaces the first. *)
Example run_idx_of_repeated_scene :
  make_run_idx ["a"; "b"; "a"] (Np.full2 1 1 0%nat) (Np.full2 1 1 0%nat)
               (Np.array3 0 1 1 3 [[[1; 0; 0]]])
  = [("a", []); ("b", [])].
Proof. vm_compute. reflexivity. Qed.

(** ** Further properties: what the fill loops write *)

Section Writes.

Variable P : nat.
Variables y x b : nat.

Lemma apply_writes_snoc (ws : list write) (w : write) (im : ndarray3 Q) :
  apply_writes P (ws ++ [w]) im =
  apply_writes P [w] (apply_writes P ws im).
Proof. unfold apply_writes. rewrite fold_left_app. reflexivity. Qed.

Lemma apply_writes_one (w : write) (im : ndarray3 Q) :
  (reaches P w y x ->
   item3 (apply_writes P [w] im) y x b = landing P w y x b) /\
  (~ reaches P w y x ->
   item3 (apply_writes P [w] im) y x b = item3 im y x b).
Proof.
  destruct w as [[m p] arr]. unfold reaches, landing, apply_writes.
  cbn [fold_left paste item3].
  match goal with
  | |- context [if ?c then _ else _] =>
      assert (Hc : c = true <->
                   (snd p * P <= y < snd p * P + P)%nat /\
                   (fst p * P <= x < fst p * P + P)%nat /\ m y x = true)
        by (rewrite !andb_true_iff, !Nat.leb_le, !Nat.ltb_lt; tauto);
      destruct c
  end.
  - split; [reflexivity|]. intros Hno. exfalso. apply Hno, Hc. reflexivity.
  - split; [|reflexivity]. intros Hr. apply Hc in Hr. discriminate.
Qed.

Lemma apply_writes_unreached (ws : list write) (im : ndarray3 Q) :
  (forall w, In w ws -> ~ reaches P w y x) ->
  item3 (apply_writes P ws im) y x b = item3 im y x b.
Proof.
  induction ws as [|w ws IH] using rev_ind; intros Hno; [reflexivity|].
  rewrite apply_writes_snoc.
  rewrite (proj2 (apply_writes_one w _)).
  - apply IH. intros w' Hw'. apply Hno. apply in_or_app. left. assumption.
  - apply Hno. apply in_or_app. right. left. reflexivity.
Qed.

Lemma reaches_dec (w : write) : reaches P w y x \/ ~ reaches P w y x.
Proof.
  destruct w as [[m p] arr]. unfold reaches.
  destruct (m y x); [|right; intros (_ & _ & H); discriminate].
  destruct (Nat.leb_spec (snd p * P) y), (Nat.ltb_spec y (snd p * P + P)),
    (Nat.leb_spec (fst p * P) x), (Nat.ltb_spec x (fst p * P + P));
    (left; repeat split; (lia || reflexivity)) || (right; lia).
Qed.

Lemma apply_writes_reached (ws : list write) (im : ndarray3 Q) (v : Q) :
  (exists w, In w ws /\ reaches P w y x) ->
  (forall w, In w ws -> reaches P w y x -> landing P w y x b = v) ->
  item3 (apply_writes P ws im) y x b = v.
Proof.
  induction ws as [|w ws IH] using rev_ind; intros (w0 & Hin & Hr) Hall;
    [destruct Hin|].
  rewrite apply_writes_snoc. destruct (reaches_dec w) as [Hw|Hw].
  - rewrite (proj1 (apply_writes_one w _) Hw). apply Hall; [|assumption].
    apply in_or_app. right. left. reflexivity.
  - rewrite (proj2 (apply_writes_one w _) Hw). apply IH.
    + apply in_app_or in Hin. destruct Hin as [Hin|[<-|[]]];
        [eauto|contradiction].
    + intros w' Hw' Hr'. apply Hall; [|assumption].
      apply in_or_app. left. assumption.
Qed.

Lemma shape3_apply_writes (ws : list write) :
  forall im, shape3 (apply_writes P ws im) = shape3 im.
Proof.
  induction ws as [|[[m p] arr] ws IH]; intros im; [reflexivity|].
  unfold apply_writes in *. cbn [fold_left]. rewrite IH. reflexivity.
Qed.

End Writes.

Section Served.

Variable E : env.
Variable cfg : config.
Variable proj : projection.
Variable serve : request -> nat -> nat -> nat -> Q.
Hypothesis served : serves E serve.

(** A loop that fetches one patch per item and pastes it under a mask. *)
Lemma served_fetch_loop {X} (_id : string) (to_patch : X -> patch)
    (m : nat -> nat -> bool) (body : ndarray3 Q -> X -> M (ndarray3 Q))
    (Hbody : forall im x s,
        body im x s =
        (arr ← fetch E cfg proj _id (to_patch x);
         mret (paste im (snd (to_patch x) * PATCH_SIZE cfg)
                     (fst (to_patch x) * PATCH_SIZE cfg) (PATCH_SIZE cfg)
                     m arr)) s)
    (xs : list X) :
  forall im s,
    for_each xs body im s =
    (Return (apply_writes (PATCH_SIZE cfg)
               (map (fun x => (m, to_patch x,
                               serve (request_for cfg proj _id (to_patch x))))
                    xs) im),
     with_requests s
       (map (fun x => request_for cfg proj _id (to_patch x)) xs)).
Proof.
  induction xs as [|x0 xs IH]; intros im s.
  - cbn. rewrite with_requests_nil. reflexivity.
  - cbn [for_each map]. rewrite run_bind, Hbody, run_bind, fetch_run.
    rewrite (served _ _), run_ret, IH, with_requests_app. reflexivity.
Qed.

Lemma served_for_each {X} (ws : X -> list write) (plan : X -> list request)
    (body : ndarray3 Q -> X -> M (ndarray3 Q))
    (Hbody : forall x im s,
        body im x s =
        (Return (apply_writes (PATCH_SIZE cfg) (ws x) im),
         with_requests s (plan x)))
    (xs : list X) :
  forall im s,
    for_each xs body im s =
    (Return (apply_writes (PATCH_SIZE cfg) (flat_map ws xs) im),
     with_requests s (flat_map plan xs)).
Proof.
  induction xs as [|x0 xs IH]; intros im s.
  - cbn. rewrite with_requests_nil. reflexivity.
  - cbn [for_each flat_map]. rewrite run_bind, Hbody, IH, with_requests_app.
    unfold apply_writes. rewrite fold_left_app. reflexivity.
Qed.

(** The assignments of the two fills. *)
Lemma served_fill_single_id (Dx Dy : nat) (_id : string) (s : state) :
  PATCH_SIZE cfg <> 0%nat ->
  _fill_single_id E cfg proj Dx Dy _id s =
  (Return (apply_writes (PATCH_SIZE cfg)
             (map (fun p => (fun _ _ => true, p,
                             serve (request_for cfg proj _id p)))
                  (grid_patches cfg Dx Dy))
             (Np.full3 Dy Dx (length (BANDS cfg)) (-1)%Q)),
   with_requests s
     (map (request_for cfg proj _id) (grid_patches cfg Dx Dy))).
Proof.
  intros HP. unfold _fill_single_id, floordiv.
  destruct (Nat.eqb_spec (PATCH_SIZE cfg) 0) as [|_]; [contradiction|].
  rewrite run_bind. unfold lift at 1.
  unfold grid_patches. rewrite <- !flat_map_map.
  apply (served_for_each
           (fun ii_x =>
              map (fun p => (fun _ _ => true, p,
                             serve (request_for cfg proj _id p)))
                  (map (pair ii_x) (Np.range (Dy / PATCH_SIZE cfg + 1))))
           (fun ii_x =>
              map (request_for cfg proj _id)
                  (map (pair ii_x) (Np.range (Dy / PATCH_SIZE cfg + 1))))).
  intros ii_x im s'. rewrite run_bind. unfold lift at 1.
  rewrite !map_map.
  apply (served_fetch_loop _id (pair ii_x) (fun _ _ => true)).
  reflexivity.
Qed.

Lemma served_fill_mosaic (Dx Dy : nat) (alpha_mask : ndarray3 Z)
    (run_idx : list (string * list patch)) (s : state) :
  _fill_mosaic E cfg proj Dx Dy alpha_mask run_idx s =
  (Return (apply_writes (PATCH_SIZE cfg)
             (flat_map
                (fun e =>
                   map (fun p => (fun y x => 0 <? item3 alpha_mask y x (fst e),
                                  p,
                                  serve (request_for cfg proj (fst (snd e)) p)))
                       (snd (snd e)))
                (PyList.enumerate run_idx))
             (Np.full3 Dy Dx (length (BANDS cfg)) (-1)%Q)),
   with_requests s
     (map (fun sp => request_for cfg proj (fst sp) (snd sp))
          (fetch_plan run_idx))).
Proof.
  unfold _fill_mosaic, fetch_plan.
  rewrite <- flat_map_map,
    <- (flat_map_enumerate
          (fun sv => map (fun sp => request_for cfg proj (fst sp) (snd sp))
                         (let '(_id, vv) := sv in map (pair _id) vv))).
  apply (served_for_each
           (fun e =>
              map (fun p => (fun y x => 0 <? item3 alpha_mask y x (fst e),
                             p,
                             serve (request_for cfg proj (fst (snd e)) p)))
                  (snd (snd e)))
           (fun e => map (fun sp => request_for cfg proj (fst sp) (snd sp))
                         (let '(_id, vv) := snd e in map (pair _id) vv))).
  intros [ii [_id vv]] im s'. cbn [fst snd]. rewrite map_map. cbn [fst snd].
  apply (served_fetch_loop _id (fun p => p)
           (fun y x => 0 <? item3 alpha_mask y x ii)).
  intros im' [ii_x ii_y] s''. reflexivity.
Qed.

End Served.

Section Grid.

Variable cfg : config.
Hypothesis P_pos : PATCH_SIZE cfg <> 0%nat.

Lemma length_pairs {A B} (l1 : list A) (l2 : list B) :
  length (flat_map (fun i => map (pair i) l2) l1)
  = (length l1 * length l2)%nat.
Proof.
  induction l1 as [|i l1 IH]; [reflexivity|].
  cbn [flat_map length]. rewrite length_app, length_map, IH. reflexivity.
Qed.

Lemma length_grid_patches (Dx Dy : nat) :
  length (grid_patches cfg Dx Dy)
  = ((Dx / PATCH_SIZE cfg + 1) * (Dy / PATCH_SIZE cfg + 1))%nat.
Proof.
  unfold grid_patches. etransitivity; [apply length_pairs|].
  unfold Np.range. rewrite !length_seq. reflexivity.
Qed.

Lemma in_grid_patches (Dx Dy y x : nat) :
  (y < Dy)%nat -> (x < Dx)%nat ->
  In (x / PATCH_SIZE cfg, y / PATCH_SIZE cfg)%nat (grid_patches cfg Dx Dy).
Proof.
  intros Hy Hx. unfold grid_patches, Np.range. apply in_flat_map.
  exists (x / PATCH_SIZE cfg)%nat. split.
  - apply in_seq.
    pose proof (Nat.Div0.div_le_mono x Dx (PATCH_SIZE cfg)). lia.
  - apply in_map. apply in_seq.
    pose proof (Nat.Div0.div_le_mono y Dy (PATCH_SIZE cfg)). lia.
Qed.

Lemma reaches_own_patch (m : nat -> nat -> bool)
    (arr : nat -> nat -> nat -> Q) (p : patch) (y x : nat) :
  reaches (PATCH_SIZE cfg) (m, p, arr) y x <->
  p = (x / PATCH_SIZE cfg, y / PATCH_SIZE cfg)%nat /\ m y x = true.
Proof.
  unfold reaches. destruct p as [u v]. cbn [fst snd].
  pose proof (in_patch_div (PATCH_SIZE cfg) P_pos u x) as Hx.
  pose proof (in_patch_div (PATCH_SIZE cfg) P_pos v y) as Hy.
  split.
  - intros (Hv & Hu & Hm). split; [|assumption]. f_equal; symmetry.
    + apply Hx. lia.
    + apply Hy. lia.
  - intros ([= -> ->] & Hm).
    pose proof (proj2 Hx eq_refl). pose proof (proj2 Hy eq_refl).
    repeat split; (lia || assumption).
Qed.

Lemma offset_in_patch (n : nat) :
  (n - n / PATCH_SIZE cfg * PATCH_SIZE cfg = n mod PATCH_SIZE cfg)%nat.
Proof. rewrite Nat.Div0.mod_eq. lia. Qed.

End Grid.

(** X11.  With a patch size that is not zero and a service that serves every
    body, [_fill_single_id] posts one request for each of the
    [(Dx // P + 1) * (Dy // P + 1)] patches of its two loops, the patches
    that overhang or lie beyond the grid included, and returns a buffer of
    the shape of the grid. *)
Theorem fill_single_id_posts_every_patch (E : env) (cfg : config)
    (proj : projection) (Dx Dy : nat) (_id : string) (s : state) :
  PATCH_SIZE cfg <> 0%nat ->
  (forall hist q, exists arr, post E hist q = inr arr) ->
  exists im_arr,
    fst (_fill_single_id E cfg proj Dx Dy _id s) = Return im_arr /\
    shape3 im_arr = (Dy, Dx, length (BANDS cfg)) /\
    requests (snd (_fill_single_id E cfg proj Dx Dy _id s)) =
      requests s ++ map (request_for cfg proj _id) (grid_patches cfg Dx Dy) /\
    length (requests (snd (_fill_single_id E cfg proj Dx Dy _id s))) =
      (length (requests s) +
       (Dx / PATCH_SIZE cfg + 1) * (Dy / PATCH_SIZE cfg + 1))%nat.
Proof.
  intros HP Hserved.
  destruct (runs_fill_single_id E cfg proj Dx Dy _id HP s) as (r & Hrun & Hr).
  rewrite (issue_all_served E _ Hserved) in Hrun, Hr. cbn [fst snd] in *.
  destruct Hr as (im & -> & Hshape). exists im. rewrite Hrun. cbn [fst snd].
  split; [reflexivity|]. split; [assumption|]. split; [reflexivity|].
  cbn [requests with_requests].
  rewrite length_app, length_map, (length_grid_patches cfg). reflexivity.
Qed.

Lemma serve_zeros_serves (hist : list request) (q : request) :
  exists arr, post E_fast hist q = inr arr.
Proof. eexists. reflexivity. Defined.

Lemma fill_single_id_posts_every_patch_witness :
  exists im_arr,
    fst (_fill_single_id E_fast cfg_wide proj_25x1 32 16 "S2A_31UDD" initial)
    = Return im_arr /\
    length (requests (snd (_fill_single_id E_fast cfg_wide proj_25x1 32 16
                             "S2A_31UDD" initial))) = 6%nat.
Proof.
  destruct (fill_single_id_posts_every_patch E_fast cfg_wide proj_25x1 32 16
              "S2A_31UDD" initial ltac:(discriminate) serve_zeros_serves)
    as (im & Hret & _ & _ & Hlen).
  exists im. split; [exact Hret|]. rewrite Hlen. reflexivity.
Defined.

(** X12.  With a patch size that is not zero and a service that serves
    every body whatever came before, the buffer that [_fill_single_id]
    returns holds at every pixel of the grid and every band the item of the
    array served for the patch of that pixel, at the offset of the pixel in
    the patch: every pixel of the grid is written. *)
Theorem fill_single_id_fills_every_pixel (E : env) (cfg : config)
    (proj : projection) (serve : request -> nat -> nat -> nat -> Q)
    (Dx Dy : nat) (_id : string) (s : state) :
  PATCH_SIZE cfg <> 0%nat ->
  serves E serve ->
  exists im_arr,
    fst (_fill_single_id E cfg proj Dx Dy _id s) = Return im_arr /\
    forall y x b, (y < Dy)%nat -> (x < Dx)%nat ->
      item3 im_arr y x b =
      serve (request_for cfg proj _id
               (x / PATCH_SIZE cfg, y / PATCH_SIZE cfg)%nat)
            (y mod PATCH_SIZE cfg)%nat (x mod PATCH_SIZE cfg)%nat b.
Proof.
  intros HP Hserved.
  rewrite (served_fill_single_id E cfg proj serve Hserved Dx Dy _id s HP).
  eexists. split; [reflexivity|]. intros y x b Hy Hx.
  apply apply_writes_reached.
  - eexists. split.
    + apply in_map. apply (in_grid_patches cfg HP Dx Dy y x Hy Hx).
    + apply (reaches_own_patch cfg HP). auto.
  - intros w Hw Hr. apply in_map_iff in Hw. destruct Hw as (p & <- & _).
    apply (reaches_own_patch cfg HP) in Hr. destruct Hr as [-> _].
    unfold landing. cbn [fst snd]. rewrite !(offset_in_patch cfg HP).
    reflexivity.
Qed.

Lemma serve_zeros_stateless : serves E_fast (fun _ _ _ _ => 0%Q).
Proof. intros hist q. reflexivity. Defined.

Lemma fill_single_id_fills_every_pixel_witness :
  exists im_arr,
    fst (_fill_single_id E_fast cfg_wide proj_25x1 25 1 "S2A_31UDD" initial)
    = Return im_arr /\
    forall y x b, (y < 1)%nat -> (x < 25)%nat -> item3 im_arr y x b = 0%Q.
Proof.
  destruct (fill_single_id_fills_every_pixel E_fast cfg_wide proj_25x1
              (fun _ _ _ _ => 0%Q) 25 1 "S2A_31UDD" initial
              ltac:(discriminate) serve_zeros_stateless) as (im & Hret & Him).
  exists im. split; [exact Hret|]. intros y x b Hy Hx.
  exact (Him y x b Hy Hx).
Defined.

Lemma lookup_enumerate {A} (l : list A) (i j : nat) (x : A) :
  PyList.enumerate l !! i = Some (j, x) <-> j = i /\ l !! i = Some x.
Proof.
  unfold PyList.enumerate.
  assert (H : forall a i, combine (seq a (length l)) l !! i = Some (j, x) <->
                          j = (a + i)%nat /\ l !! i = Some x).
  { clear i. induction l as [|z l IH]; intros a i.
    - cbn. rewrite lookup_nil. split; [discriminate|intros [_ H]; discriminate].
    - cbn [length seq combine]. destruct i as [|i]; cbn.
      + rewrite Nat.add_0_r. split.
        * intros [= <- <-]. auto.
        * intros [-> [= ->]]. reflexivity.
      + rewrite IH. replace (S a + i)%nat with (a + S i)%nat by lia.
        reflexivity. }
  apply H.
Qed.

Section MosaicWrites.

Variable cfg : config.
Variable proj : projection.
Variable serve : request -> nat -> nat -> nat -> Q.
Variable alpha_mask : ndarray3 Z.
Variable F : nat -> list patch.

Lemma in_mosaic_writes (image_ids : list string) (w : write) :
  In w (flat_map
          (fun e =>
             map (fun p => (fun y x => 0 <? item3 alpha_mask y x (fst e), p,
                            serve (request_for cfg proj (fst (snd e)) p)))
                 (snd (snd e)))
          (PyList.enumerate
             (map (fun e => (snd e, F (fst e)))
                  (PyList.enumerate image_ids)))) <->
  exists ii _id p,
    image_ids !! ii = Some _id /\ In p (F ii) /\
    w = (fun y x => 0 <? item3 alpha_mask y x ii, p,
         serve (request_for cfg proj _id p)).
Proof.
  rewrite in_flat_map. split.
  - intros ([i [_id vv]] & He & Hw). apply in_enumerate in He.
    rewrite list_lookup_fmap in He.
    destruct (PyList.enumerate image_ids !! i) as [[j c]|] eqn:Hj;
      [|discriminate].
    cbn in He. injection He as <- <-.
    apply lookup_enumerate in Hj. destruct Hj as [-> Hc].
    cbn [fst snd] in Hw. apply in_map_iff in Hw.
    destruct Hw as (p & <- & Hp). exists i, c, p. auto.
  - intros (ii & _id & p & Hii & Hp & ->).
    exists (ii, (_id, F ii)). split.
    + apply in_enumerate. rewrite list_lookup_fmap.
      rewrite (proj2 (lookup_enumerate image_ids ii ii _id)) by auto.
      reflexivity.
    + cbn [fst snd]. apply in_map_iff. exists p. auto.
Qed.

End MosaicWrites.

Section MosaicPixels.

Variable E : env.
Variable cfg : config.
Variable proj : projection.
Variable serve : request -> nat -> nat -> nat -> Q.
Hypothesis served : serves E serve.

Variable image_ids : list string.
Hypothesis distinct : List.NoDup image_ids.

Variables Dx Dy : Z.
Variables px_x px_y : ndarray2 nat.
Hypothesis indexed : _make_pixel_indexer cfg Dx Dy = Return (px_x, px_y).

Variable alpha_mask : ndarray3 Z.
Hypothesis alpha_shape :
  shape3 alpha_mask = (Z.to_nat Dy, Z.to_nat Dx, length image_ids).

(** What [_fill_mosaic] leaves at a pixel of the grid. *)
Lemma fill_mosaic_pixels (s : state) :
  exists im_arr,
    _fill_mosaic E cfg proj (Z.to_nat Dx) (Z.to_nat Dy) alpha_mask
      (make_run_idx image_ids px_x px_y alpha_mask) s
    = (Return im_arr,
       with_requests s
         (map (fun sp => request_for cfg proj (fst sp) (snd sp))
              (fetch_plan (make_run_idx image_ids px_x px_y alpha_mask)))) /\
    forall y x b, (y < Z.to_nat Dy)%nat -> (x < Z.to_nat Dx)%nat ->
      (forall ii _id,
          image_ids !! ii = Some _id ->
          0 < item3 alpha_mask y x ii ->
          (forall jj, (jj < length image_ids)%nat -> jj <> ii ->
                      item3 alpha_mask y x jj <= 0) ->
          item3 im_arr y x b =
          serve (request_for cfg proj _id
                   (x / PATCH_SIZE cfg, y / PATCH_SIZE cfg)%nat)
                (y mod PATCH_SIZE cfg)%nat (x mod PATCH_SIZE cfg)%nat b) /\
      ((forall ii, (ii < length image_ids)%nat ->
                   item3 alpha_mask y x ii <= 0) ->
       item3 im_arr y x b = (-1)%Q).
Proof.
  pose proof (indexer_patch_size cfg Dx Dy _ indexed) as HP.
  rewrite (served_fill_mosaic E cfg proj serve served).
  eexists. split; [reflexivity|]. intros y x b Hy Hx.
  rewrite (make_run_idx_distinct image_ids px_x px_y alpha_mask distinct).
  split.
  - intros ii _id Hii Hown Honly. apply apply_writes_reached.
    + eexists. split.
      * apply in_mosaic_writes. exists ii, _id. eexists.
        split; [eassumption|]. split; [|reflexivity].
        apply list_elem_of_In.
        apply (owned_patches_spec cfg Dx Dy px_x px_y indexed alpha_mask
                 (length image_ids) alpha_shape ii
                 (x / PATCH_SIZE cfg, y / PATCH_SIZE cfg)%nat).
        exists y, x. repeat split; try assumption; cbn [fst snd];
          apply (in_patch_div (PATCH_SIZE cfg) HP); reflexivity.
      * apply (reaches_own_patch cfg HP). split; [reflexivity|].
        apply Z.ltb_lt. assumption.
    + intros w Hw Hr. apply in_mosaic_writes in Hw.
      destruct Hw as (jj & c & p & Hjj & _ & ->).
      apply (reaches_own_patch cfg HP) in Hr. destruct Hr as [-> Hm].
      apply Z.ltb_lt in Hm.
      assert (jj = ii) as ->.
      { destruct (Nat.eq_dec jj ii) as [|Hne]; [assumption|].
        apply lookup_lt_Some in Hjj. specialize (Honly jj Hjj Hne). lia. }
      rewrite Hii in Hjj. injection Hjj as <-.
      unfold landing. cbn [fst snd]. rewrite !(offset_in_patch cfg HP).
      reflexivity.
  - intros Hnone. rewrite apply_writes_unreached; [reflexivity|].
    intros w Hw Hr. apply in_mosaic_writes in Hw.
    destruct Hw as (jj & c & p & Hjj & _ & ->).
    apply (reaches_own_patch cfg HP) in Hr. destruct Hr as [_ Hm].
    apply Z.ltb_lt in Hm. apply lookup_lt_Some in Hjj.
    specialize (Hnone jj Hjj). lia.
Qed.

End MosaicPixels.

(** ** Further properties: whole builds *)

Section Selection.

Lemma where_from_lt (b : list bool) :
  forall i n, In n (Np.where_from i b) -> (n < i + length b)%nat.
Proof.
  induction b as [|c b IH]; intros i n; cbn [Np.where_from]; [intros []|].
  rewrite in_app_iff. intros [Hc|Hb].
  - destruct c; cbn in Hc; [|tauto]. cbn [length]. lia.
  - apply IH in Hb. cbn [length]. lia.
Qed.

Lemma where_from_nonempty (b : list bool) :
  forall i, (1 <= Np.count_true b)%nat -> Np.where_from i b <> [].
Proof.
  unfold Np.count_true. induction b as [|c b IH]; intros i; cbn; [lia|].
  destruct c; cbn; [discriminate|]. apply IH.
Qed.

Lemma fold_min_in (l : list nat) :
  forall a, In (fold_left Nat.min l a) (a :: l).
Proof.
  induction l as [|n l IH]; intros a; [left; reflexivity|].
  cbn [fold_left]. destruct (IH (Nat.min a n)) as [Heq|Hin].
  - rewrite <- Heq. destruct (Nat.min_dec a n) as [-> | ->]; cbn; auto.
  - right. right. assumption.
Qed.

Lemma where_min_in_range (hits : list bool) :
  (1 <=? Np.count_true hits)%nat = true ->
  exists k, Np.min (Np.where_ hits) = Some k /\ (k < length hits)%nat.
Proof.
  intros Hcount. apply Nat.leb_le in Hcount.
  pose proof (where_from_nonempty hits 0%nat Hcount) as Hne.
  unfold Np.where_, Np.min. destruct (Np.where_from 0 hits) as [|i l] eqn:Hw;
    [contradiction|].
  eexists. split; [reflexivity|].
  apply (where_from_lt hits 0%nat). rewrite Hw. apply fold_min_in.
Qed.

End Selection.

Section Branch.

Variable E : env.
Variable cfg : config.
Variable proj : projection.
Variable px : ndarray2 nat * ndarray2 nat.
Variable mask_arr : ndarray3 Z.
Variable fills : list (option Q).

Hypothesis P_pos : PATCH_SIZE cfg <> 0%nat.
Hypothesis fills_length : length fills = length (catalog E).

Lemma run_idx_keys_in_catalog (px_x px_y : ndarray2 nat)
    (alpha_mask : ndarray3 Z) (_id : string) (p : patch) :
  In (_id, p) (fetch_plan (make_run_idx (catalog E) px_x px_y alpha_mask)) ->
  In _id (catalog E).
Proof.
  intros Hin. apply in_fetch_plan in Hin. destruct Hin as (vv & Hin & _).
  destruct (run_idx_loop_any (owned_patches px_x px_y alpha_mask)
              ltac:(intros ii; apply NoDup_ListNoDup;
                    apply owned_patches_NoDup)
              (catalog E) 0%nat [] ltac:(constructor)
              ltac:(intros k v [])) as (_ & _ & H3 & _).
  apply (in_map fst) in Hin. apply H3 in Hin. cbn in Hin. tauto.
Qed.

(** The choice of lines 150-174 raises nothing of its own. *)
Lemma fill_branch_outcome (s : state) :
  exists plan r s',
    fill_branch E cfg proj px (mask_arr, fills) s = (r, s') /\
    requests s' = requests s ++ fst (issue E (requests s) plan) /\
    rasters s' = rasters s /\ self_im_arr s' = self_im_arr s /\
    (forall q, In q plan ->
       exists _id p, In _id (catalog E) /\ q = request_for cfg proj _id p) /\
    match snd (issue E (requests s) plan) with
    | Some msg => r = Raise (RemoteError msg)
    | None =>
        exists im, r = Return im /\
                   shape3 im = (Z.to_nat (Dy proj), Z.to_nat (Dx proj),
                                length (BANDS cfg))
    end.
Proof.
  unfold fill_branch.
  destruct (1 <=? Np.count_true (over_threshold fills))%nat eqn:Hcount.
  - destruct (where_min_in_range _ Hcount) as (k & -> & Hk).
    unfold over_threshold in Hk. rewrite length_map, fills_length in Hk.
    destruct (catalog E !! k) as [do_id|] eqn:Hid;
      [|apply lookup_ge_None in Hid; lia].
    destruct (runs_fill_single_id E cfg proj (Z.to_nat (Dx proj))
                (Z.to_nat (Dy proj)) do_id P_pos s) as (r & Hrun & Hr).
    eexists; exists r; eexists. split; [exact Hrun|]. cbn.
    repeat (split; [reflexivity|]). split; [|exact Hr].
    intros q Hq. apply in_map_iff in Hq. destruct Hq as (p & <- & _).
    exists do_id, p. split; [|reflexivity].
    apply list_elem_of_In, list_elem_of_lookup. eauto.
  - rewrite run_bind. unfold modify at 1.
    rewrite run_bind. unfold modify at 1.
    match goal with
    | |- context [_fill_mosaic E cfg proj ?dx ?dy ?a ?r ?s0] =>
        destruct (runs_fill_mosaic E cfg proj dx dy a r s0) as (r' & Hrun & Hr)
    end.
    eexists; exists r'; eexists. split; [exact Hrun|]. cbn.
    repeat (split; [reflexivity|]). split; [|exact Hr].
    intros q Hq. apply in_map_iff in Hq. destruct Hq as ([_id p] & <- & Hin).
    exists _id, p. split; [|reflexivity].
    apply (run_idx_keys_in_catalog _ _ _ _ _ Hin).
Qed.

End Branch.

Lemma mask_by_id_lengths (E : env) (image_ids : list string) (Dx Dy : nat)
    (mask_arr : ndarray3 Z) (fills : list (option Q)) :
  _mask_by_id E image_ids Dx Dy = Return (mask_arr, fills) ->
  shape3 mask_arr = (Dy, Dx, length image_ids) /\
  length fills = length image_ids.
Proof.
  unfold _mask_by_id, PyList.enumerate. intros Hrun.
  apply (mask_loop E Dx Dy (length image_ids)) in Hrun; [|reflexivity].
  destruct Hrun as (Hshape & _ & fs2 & -> & Hlen & _). auto.
Qed.




Lemma finish_raster (cfg : config) (proj : projection) (im_arr : ndarray3 Q)
    (s : state) :
  finish cfg proj im_arr s =
  (upload cfg, add_raster (raster_of cfg proj im_arr) (set_im_arr im_arr s)).
Proof.
  unfold finish, _write_rio, raster_of, upload.
  destruct (aoi_bounds proj) as [[[b0 b1] b2] b3].
  destruct (shape3 im_arr) as [[d0 d1] d2].
  rewrite !run_bind. unfold modify.
  destruct (cloud_dest cfg) as [[|c d]|]; reflexivity.
Qed.

Section Prepared.

Variable E : env.
Variable cfg : config.
Variable proj : projection.
Variable px : ndarray2 nat * ndarray2 nat.
Variable mask_arr : ndarray3 Z.
Variable fills : list (option Q).

Hypothesis resolved : _get_proj_and_affine E cfg = Return proj.
Hypothesis indexed : _make_pixel_indexer cfg (Dx proj) (Dy proj) = Return px.
Hypothesis masked :
  _mask_by_id E (catalog E) (Z.to_nat (Dx proj)) (Z.to_nat (Dy proj))
  = Return (mask_arr, fills).

(** A build whose first three steps return: the requests of its fill, and
    how it ends. *)
Lemma prepared_build (s : state) :
  exists plan,
    requests (snd (mosaic E cfg s)) =
      requests s ++ fst (issue E (requests s) plan) /\
    (forall q, In q plan ->
       exists _id p, In _id (catalog E) /\ q = request_for cfg proj _id p) /\
    match snd (issue E (requests s) plan) with
    | Some msg =>
        fst (mosaic E cfg s) = Raise (RemoteError msg) /\
        rasters (snd (mosaic E cfg s)) = rasters s /\
        self_im_arr (snd (mosaic E cfg s)) = self_im_arr s
    | None =>
        exists im_arr,
          shape3 im_arr = (Z.to_nat (Dy proj), Z.to_nat (Dx proj),
                           length (BANDS cfg)) /\
          fst (mosaic E cfg s) = upload cfg /\
          rasters (snd (mosaic E cfg s))
          = rasters s ++ [raster_of cfg proj im_arr] /\
          self_im_arr (snd (mosaic E cfg s)) = Some im_arr
    end.
Proof.
  rewrite mosaic_unfold, resolved, indexed, masked.
  destruct (fill_branch_outcome E cfg proj px mask_arr fills
              (indexer_patch_size cfg _ _ _ indexed)
              (proj2 (mask_by_id_lengths _ _ _ _ _ _ masked))
              (prepared E proj px (mask_arr, fills) s))
    as (plan & r & s' & Hrun & Hreq & Hras & Him & Hplan & Hr).
  exists plan. rewrite run_bind, Hrun.
  cbn [requests prepared set_masks set_px set_image_ids set_proj rasters
       self_im_arr] in *.
  destruct (snd (issue E (requests s) plan)) as [msg|].
  - subst r. cbn [fst snd]. auto.
  - destruct Hr as (im & -> & Hshape). rewrite finish_raster.
    cbn [fst snd add_raster set_im_arr requests rasters self_im_arr].
    split; [assumption|]. split; [assumption|]. exists im.
    rewrite Hras. auto.
Qed.

End Prepared.




Section AnsweredBuild.

Variable E : env.
Variable cfg : config.
Variable proj : projection.
Variable px : ndarray2 nat * ndarray2 nat.
Variable mask_arr : ndarray3 Z.
Variable fills : list (option Q).

Hypothesis resolved : _get_proj_and_affine E cfg = Return proj.
Hypothesis indexed : _make_pixel_indexer cfg (Dx proj) (Dy proj) = Return px.
Hypothesis masked :
  _mask_by_id E (catalog E) (Z.to_nat (Dx proj)) (Z.to_nat (Dy proj))
  = Return (mask_arr, fills).


(** X15.  Every request that a build posts asks for a scene of the catalog
    in the CRS of the resolver, for the configured bands and a square of
    the patch size, and at the scale 10 and -10, whatever the configured
    scale. *)
Theorem build_requests_name_catalog_scenes (s : state) (q : request) :
  In q (requests (snd (mosaic E cfg s))) ->
  In q (requests s) \/
  ((exists _id,
       In _id (catalog E) /\
       req_name q = ("projects/earthengine-public/assets/" ++ _id)%string)
   /\ req_bandIds q = BANDS cfg
   /\ req_crsCode q = UTM_EPSG proj
   /\ req_width q = PATCH_SIZE cfg /\ req_height q = PATCH_SIZE cfg
   /\ req_scaleX q = 10%Q /\ req_scaleY q = (-10)%Q).
Proof.
  destruct (prepared_build E cfg proj px mask_arr fills resolved indexed
              masked s) as (plan & Hreq & Hplan & _).
  rewrite Hreq, in_app_iff. intros [Hold|Hnew]; [left; assumption|right].
  destruct (issue_firstn E plan (requests s)) as (n & Hn & _).
  rewrite Hn in Hnew.
  assert (Hq : In q plan).
  { rewrite <- (firstn_skipn n plan). apply in_or_app. left. assumption. }
  destruct (Hplan q Hq) as (_id & p & Hin & ->).
  split; [exists _id; auto|]. cbn. auto 10.
Qed.


End AnsweredBuild.

Section MultiSceneBuffer.

Variable E : env.
Variable cfg : config.
Variable proj : projection.
Variables px_x px_y : ndarray2 nat.
Variable mask_arr : ndarray3 Z.
Variable fills : list (option Q).

Hypothesis resolved : _get_proj_and_affine E cfg = Return proj.
Hypothesis indexed :
  _make_pixel_indexer cfg (Dx proj) (Dy proj) = Return (px_x, px_y).
Hypothesis masked :
  _mask_by_id E (catalog E) (Z.to_nat (Dx proj)) (Z.to_nat (Dy proj))
  = Return (mask_arr, fills).

(** X17.  In the multi-scene path, with distinct scene identifiers, binary
    masks and a service that serves every body whatever came before, the
    buffer of the build holds, at a pixel of the grid that some mask covers,
    the item served for the first scene of the catalog whose mask covers
    it, from the patch of the pixel and at the offset of the pixel in that
    patch; at a pixel that no mask covers it keeps the nodata value -1. *)
Theorem multi_scene_buffer_takes_first_covering_scene
    (serve : request -> nat -> nat -> nat -> Q) (s : state) :
  serves E serve ->
  List.NoDup (catalog E) ->
  binary mask_arr (Z.to_nat (Dy proj)) (Z.to_nat (Dx proj))
         (length (catalog E)) ->
  (forall j g, fills !! j = Some (Some g) -> (g <= 95 # 100)%Q) ->
  exists im_arr,
    self_im_arr (snd (mosaic E cfg s)) = Some im_arr /\
    forall y x b,
      (y < Z.to_nat (Dy proj))%nat -> (x < Z.to_nat (Dx proj))%nat ->
      (forall k _id,
          catalog E !! k = Some _id ->
          item3 mask_arr y x k = 1 ->
          (forall j, (j < k)%nat -> item3 mask_arr y x j = 0) ->
          item3 im_arr y x b =
          serve (request_for cfg proj _id
                   (x / PATCH_SIZE cfg, y / PATCH_SIZE cfg)%nat)
                (y mod PATCH_SIZE cfg)%nat (x mod PATCH_SIZE cfg)%nat b) /\
      ((forall k, (k < length (catalog E))%nat -> item3 mask_arr y x k = 0) ->
       item3 im_arr y x b = (-1)%Q).
Proof.
  intros Hserved Hids Hbin Hlow.
  rewrite (mosaic_multi_scene E cfg proj (px_x, px_y) mask_arr fills
             resolved indexed masked s (none_over_threshold fills Hlow)).
  cbv zeta. cbn [fst snd].
  match goal with
  | |- context [(_fill_mosaic E cfg proj _ _ ?a _ ≫= _) ?s0] =>
      destruct (fill_mosaic_pixels E cfg proj serve Hserved (catalog E) Hids
                  (Dx proj) (Dy proj) px_x px_y indexed a
                  (shape3_make_alpha_mask _ _ _ _) s0)
        as (im & Hrun & Hpix)
  end.
  rewrite run_bind, Hrun, finish_raster. cbn [snd self_im_arr add_raster
    set_im_arr].
  exists im. split; [reflexivity|]. intros y x b Hy Hx.
  destruct (Hpix y x b Hy Hx) as [Hown Hnone].
  pose proof (layer_value_one mask_arr _ _ _ Hbin y x Hy Hx) as Hone.
  pose proof (layer_value_binary mask_arr _ _ _ Hbin y x Hy Hx) as Hbinary.
  split.
  - intros k _id Hk Hk1 Hk0. pose proof (lookup_lt_Some _ _ _ Hk) as Hklt.
    apply (Hown k _id Hk).
    + rewrite alpha_item by assumption.
      rewrite (proj2 (Hone k Hklt)) by auto. lia.
    + intros jj Hjj Hne. rewrite alpha_item by assumption.
      destruct (Hbinary jj Hjj) as [-> | H1]; [lia|]. exfalso.
      apply (Hone jj Hjj) in H1. destruct H1 as [Hj1 Hj0].
      destruct (Nat.lt_trichotomy jj k) as [Hlt|[Heq|Hgt]];
        [|contradiction|].
      * rewrite (Hk0 jj Hlt) in Hj1. discriminate.
      * rewrite (Hj0 k Hgt) in Hk1. discriminate.
  - intros Hall. apply Hnone. intros ii Hii.
    rewrite alpha_item by assumption.
    destruct (Hbinary ii Hii) as [-> | H1]; [lia|]. exfalso.
    apply (Hone ii Hii) in H1. destruct H1 as [H1 _].
    rewrite (Hall ii Hii) in H1. discriminate.
Qed.

End MultiSceneBuffer.

Section EmptyGrid.

Lemma flat_map_nil {A B} (l : list A) :
  flat_map (fun _ : A => @nil B) l = [].
Proof. induction l as [|a l IH]; [reflexivity|assumption]. Qed.

Lemma select_pos_empty {A} (a : ndarray2 A) (m : ndarray2 Z) :
  fst (shape2 m) = 0%nat \/ snd (shape2 m) = 0%nat ->
  Np.select_pos a m = [].
Proof.
  unfold Np.select_pos. intros [-> | ->]; [reflexivity|].
  cbn [Np.range seq flat_map]. apply flat_map_nil.
Qed.

Lemma owned_patches_empty (px_x px_y : ndarray2 nat) (alpha_mask : ndarray3 Z)
    (ii : nat) :
  fst (fst (shape3 alpha_mask)) = 0%nat \/
  snd (fst (shape3 alpha_mask)) = 0%nat ->
  owned_patches px_x px_y alpha_mask ii = [].
Proof.
  intros Hshape. unfold owned_patches, PyList.list_set.
  rewrite (select_pos_empty px_x).
  - cbn [combine list_to_set]. apply elements_empty.
  - rewrite shape2_layer. cbn [fst snd]. exact Hshape.
Qed.

Lemma make_run_idx_values (P : list patch -> Prop) (F : nat -> list patch)
    (l : list (nat * string)) :
  (forall ii, P (F ii)) ->
  forall d,
    (forall k v, In (k, v) d -> P v) ->
    forall k v,
      In (k, v) (fold_left
                   (fun run_idx '(ii, _id) =>
                      PyList.dict_set run_idx _id (F ii)) l d) ->
      P v.
Proof.
  intros HF. induction l as [|[ii _id] l IH]; intros d Hd; [exact Hd|].
  cbn [fold_left]. apply IH. apply dict_set_values; [apply HF|exact Hd].
Qed.

Lemma fetch_plan_empty (image_ids : list string) (px_x px_y : ndarray2 nat)
    (alpha_mask : ndarray3 Z) :
  fst (fst (shape3 alpha_mask)) = 0%nat \/
  snd (fst (shape3 alpha_mask)) = 0%nat ->
  fetch_plan (make_run_idx image_ids px_x px_y alpha_mask) = [].
Proof.
  intros Hshape.
  destruct (fetch_plan _) as [|[_id p] plan] eqn:Hplan; [reflexivity|].
  assert (Hin : In (_id, p)
                   (fetch_plan (make_run_idx image_ids px_x px_y alpha_mask)))
    by (rewrite Hplan; left; reflexivity).
  apply in_fetch_plan in Hin. destruct Hin as (vv & Hvv & Hp).
  unfold make_run_idx in Hvv.
  apply (make_run_idx_values (fun v => v = [])
           (owned_patches px_x px_y alpha_mask)) in Hvv.
  - subst vv. destruct Hp.
  - intros ii. apply owned_patches_empty. assumption.
  - intros k v [].
Qed.

End EmptyGrid.

Section EmptyGridBuild.

Variable E : env.
Variable cfg : config.
Variable proj : projection.
Variable px : ndarray2 nat * ndarray2 nat.
Variable mask_arr : ndarray3 Z.
Variable fills : list (option Q).

Hypothesis resolved : _get_proj_and_affine E cfg = Return proj.
Hypothesis indexed : _make_pixel_indexer cfg (Dx proj) (Dy proj) = Return px.
Hypothesis masked :
  _mask_by_id E (catalog E) (Z.to_nat (Dx proj)) (Z.to_nat (Dy proj))
  = Return (mask_arr, fills).

(** X18.  On a grid of zero width or zero height on which the resolver, the
    indexer and the mask builder return, the build takes the multi-scene
    path, every fill fraction being [nan], and that path owns no patch: the
    build posts no request, whatever the catalog. *)
Theorem empty_grid_posts_no_request (s : state) :
  Dx proj = 0 \/ Dy proj = 0 ->
  (exists alpha_mask,
      self_alpha_mask (snd (mosaic E cfg s)) = Some alpha_mask) /\
  requests (snd (mosaic E cfg s)) = requests s.
Proof.
  intros Hzero.
  assert (Hnat : Z.to_nat (Dy proj) = 0%nat \/ Z.to_nat (Dx proj) = 0%nat)
    by (destruct Hzero as [-> | ->]; auto).
  assert (Hnan : forall f, In f fills -> f = None).
  { revert masked. unfold _mask_by_id, PyList.enumerate. intros Hrun.
    apply (mask_loop E _ _ (length (catalog E))) in Hrun; [|reflexivity].
    destruct Hrun as (_ & _ & fs2 & Hfs & Hlen & Hl). cbn [app] in Hfs.
    subst fs2. intros f Hf.
    apply list_elem_of_In, list_elem_of_lookup in Hf. destruct Hf as [ii Hii].
    destruct (catalog E !! ii) as [_id|] eqn:Hid.
    - destruct (Hl ii _id Hid) as (im & _ & _ & Hf). rewrite Hii in Hf.
      injection Hf as ->. unfold fill_fraction.
      destruct Hnat as [-> | ->]; [reflexivity|].
      destruct (_ =? 0)%nat; reflexivity.
    - apply lookup_ge_None in Hid. apply lookup_lt_Some in Hii. lia. }
  assert (Hlow : forall j g, fills !! j = Some (Some g) -> (g <= 95 # 100)%Q).
  { intros j g Hj. assert (Hin : In (Some g) fills).
    { apply list_elem_of_In, list_elem_of_lookup. eauto. }
    apply Hnan in Hin. discriminate. }
  rewrite (mosaic_multi_scene E cfg proj px mask_arr fills
             resolved indexed masked s (none_over_threshold fills Hlow)).
  cbv zeta.
  match goal with
  | |- context [(_fill_mosaic E cfg proj ?dx ?dy ?a ?r ≫= _) ?s0] =>
      destruct (fill_then_finish E cfg proj _ _ _ s0
                  (runs_fill_mosaic E cfg proj dx dy a r))
        as (r' & s' & -> & Hreq & _ & Halpha & _)
  end.
  cbn [snd]. rewrite Halpha, Hreq. split; [eexists; reflexivity|].
  rewrite fetch_plan_empty.
  - cbn. apply app_nil_r.
  - rewrite shape3_make_alpha_mask. cbn [fst snd]. exact Hnat.
Qed.

End EmptyGridBuild.

(** X19.  A build that completes has handed to the sink one raster, at the
    configured path, with one band per configured band and the CRS of the
    resolver, whose transform sends column [col] and row [row] to
    [(aoi_min_x + col * scale, aoi_max_y - row * scale)]: pixel (0, 0) has
    its corner at the north-west corner of the AOI. *)
Theorem raster_is_georeferenced_north_up (E : env) (cfg : config)
    (s : state) :
  fst (mosaic E cfg s) = Return tt ->
  exists proj ras,
    _get_proj_and_affine E cfg = Return proj /\
    rasters (snd (mosaic E cfg s)) = rasters s ++ [ras] /\
    ras_path ras = save_path cfg /\
    ras_count ras = length (BANDS cfg) /\
    ras_crs ras = UTM_EPSG proj /\
    let '(b0, _, _, b3) := aoi_bounds proj in
    forall col row,
      (fst (affine_apply (ras_transform ras) col row)
       == b0 + col * SCALE cfg)%Q /\
      (snd (affine_apply (ras_transform ras) col row)
       == b3 - row * SCALE cfg)%Q.
Proof.
  intros Hdone.
  destruct (_get_proj_and_affine E cfg) as [proj|e0] eqn:Hres.
  2:{ rewrite mosaic_unfold, Hres in Hdone. discriminate. }
  destruct (_make_pixel_indexer cfg (Dx proj) (Dy proj)) as [px|e0] eqn:Hidx.
  2:{ rewrite mosaic_unfold, Hres, Hidx in Hdone. discriminate. }
  destruct (_mask_by_id E (catalog E) (Z.to_nat (Dx proj))
                        (Z.to_nat (Dy proj))) as [[mask_arr fills]|e0]
    eqn:Hmask.
  2:{ rewrite mosaic_unfold, Hres, Hidx, Hmask in Hdone. discriminate. }
  destruct (prepared_build E cfg proj px mask_arr fills Hres Hidx Hmask s)
    as (plan & _ & _ & Hout).
  destruct (snd (issue E (requests s) plan)) as [msg|].
  - destruct Hout as (Hraise & _). rewrite Hraise in Hdone. discriminate.
  - destruct Hout as (im & _ & _ & Hras & _).
    exists proj, (raster_of cfg proj im). split; [reflexivity|].
    split; [assumption|]. unfold raster_of.
    destruct (aoi_bounds proj) as [[[b0 b1] b2] b3].
    destruct (shape3 im) as [[d0 d1] d2]. cbn.
    repeat (split; [reflexivity|]). intros col row. split; ring.
Qed.

(** ** The properties of whole builds on the sample builds *)



Lemma build_requests_name_catalog_scenes_witness :
  In (request_for cfg_rgb proj_4x2 "S2B_31UBB" (1, 0)%nat)
     (requests (snd (mosaic E_two_scenes cfg_rgb initial))) /\
  req_name (request_for cfg_rgb proj_4x2 "S2B_31UBB" (1, 0)%nat)
  = "projects/earthengine-public/assets/S2B_31UBB" /\
  req_scaleY (request_for cfg_rgb proj_4x2 "S2B_31UBB" (1, 0)%nat) = (-10)%Q.
Proof.
  assert (Hin : In (request_for cfg_rgb proj_4x2 "S2B_31UBB" (1, 0)%nat)
                   (requests (snd (mosaic E_two_scenes cfg_rgb initial)))).
  { vm_compute. auto 10. }
  split; [exact Hin|].
  destruct (build_requests_name_catalog_scenes
              E_two_scenes cfg_rgb proj_4x2 _ _ _ eq_refl eq_refl eq_refl
              initial _ Hin) as [[]|(_ & _ & _ & _ & _ & _ & Hy)].
  split; [reflexivity|exact Hy].
Defined.



Lemma by_scene_serves : serves E_by_scene serve_by_scene.
Proof. intros hist q. reflexivity. Defined.

Lemma by_scene_masks_binary (mask_arr : ndarray3 Z)
    (fills : list (option Q)) :
  _mask_by_id E_by_scene (catalog E_by_scene) 4 2 = Return (mask_arr, fills) ->
  binary mask_arr 2 4 2.
Proof.
  intros [= <- _] y x i Hy Hx Hi.
  destruct y as [|[|y]]; [| |lia];
    (destruct x as [|[|[|[|x]]]]; [| | | |lia]);
    (destruct i as [|[|i]]; [| |lia]); vm_compute; auto.
Defined.

Lemma multi_scene_buffer_takes_first_covering_scene_witness :
  exists im_arr,
    self_im_arr (snd (mosaic E_by_scene cfg_rgb initial)) = Some im_arr /\
    item3 im_arr 0 1 0 = 1%Q /\ item3 im_arr 0 3 0 = 2%Q.
Proof.
  destruct (multi_scene_buffer_takes_first_covering_scene
              E_by_scene cfg_rgb proj_4x2 _ _ _ _ eq_refl eq_refl eq_refl
              serve_by_scene initial by_scene_serves two_scenes_distinct
              (by_scene_masks_binary _ _ eq_refl) two_scenes_below_threshold)
    as (im & Him & Hpix).
  exists im. split; [exact Him|]. split.
  - refine (proj1 (Hpix 0 1 0 _ _)%nat 0%nat "S2A_31UAA" eq_refl eq_refl _);
      [cbn; lia|cbn; lia|intros j Hj; lia].
  - refine (proj1 (Hpix 0 3 0 _ _)%nat 1%nat "S2B_31UBB" eq_refl eq_refl _);
      [cbn; lia|cbn; lia|].
    intros j Hj. assert (j = 0%nat) as -> by lia. reflexivity.
Defined.

Lemma empty_grid_posts_no_request_witness :
  (Dx proj_0x2 = 0 \/ Dy proj_0x2 = 0) /\
  (exists alpha_mask,
      self_alpha_mask (snd (mosaic E_flat_scenes cfg_rgb initial))
      = Some alpha_mask) /\
  requests (snd (mosaic E_flat_scenes cfg_rgb initial)) = [].
Proof.
  split; [left; reflexivity|].
  exact (empty_grid_posts_no_request
           E_flat_scenes cfg_rgb proj_0x2 _ _ _ eq_refl eq_refl eq_refl
           initial (or_introl eq_refl)).
Defined.

Lemma raster_is_georeferenced_north_up_witness :
  fst (mosaic E_two_scenes cfg_rgb initial) = Return tt /\
  exists ras,
    rasters (snd (mosaic E_two_scenes cfg_rgb initial)) = [ras] /\
    (fst (affine_apply (ras_transform ras) 0 0) == 500000)%Q /\
    (snd (affine_apply (ras_transform ras) 0 0) == 5000025)%Q /\
    (snd (affine_apply (ras_transform ras) 0 1) == 5000015)%Q.
Proof.
  split; [reflexivity|].
  destruct (raster_is_georeferenced_north_up E_two_scenes cfg_rgb initial
              eq_refl) as (proj & ras & Hres & Hras & _ & _ & _ & Hgeo).
  injection Hres as <-. cbn in Hgeo.
  exists ras. split; [exact Hras|].
  split; [rewrite (proj1 (Hgeo 0 0)%Q); reflexivity|].
  split; [rewrite (proj2 (Hgeo 0 0)%Q); reflexivity|].
  rewrite (proj2 (Hgeo 0 1)%Q). reflexivity.
Defined.
